(** * txamqp_helpers/amqp.py: the reconnecting AMQP factory and its protocol

    A shallow embedding of [AMQPProtocol] and [AMQPFactory] and the
    properties of their connection life cycle, replay and data-plane loops.

    The program is callback driven: every method runs to completion on the
    reactor thread, and an [inlineCallbacks] generator runs until it yields a
    deferred that has not fired yet.  The embedding therefore is a transition
    system.  A [world] holds the attributes of the factory, the protocol
    object of the current connection, and what Twisted and txamqp hold for
    them: the generators parked on the channel, the armed [queue.get()]
    deferreds, the publishes in flight and the running handlers.  An [event]
    is one entry of the program from outside (an application call, a transport
    notification or a deferred firing); [step] runs the code this entry
    triggers.  Everything the program does towards its collaborators is
    appended to the [trace] of the world. *)

From stdpp Require Import gmap strings list fin_maps pretty.
From Stdlib Require Import ZArith.

Open Scope string_scope.
Open Scope list_scope.

(** ** Python values *)

(** The values that travel through the declaration options. *)
Inductive pyval :=
| PNone
| PBool (b : bool)
| PInt (z : Z)
| PStr (s : string).

#[global] Instance pyval_eq_dec : EqDecision pyval.
Proof. solve_decision. Defined.

Abbreviation pydict := (gmap string pyval).

(** An [exchange] or [queue] argument: the code asks [type(x) is dict]. *)
Inductive pyarg :=
| Val (v : pyval)
| Dict (d : pydict).

#[global] Instance pyarg_eq_dec : EqDecision pyarg.
Proof. solve_decision. Defined.

Definition exchange_defaults : pydict :=
  {[ "type" := PStr "direct"; "durable" := PBool true; "auto_delete" := PBool false ]}.

Definition queue_defaults : pydict :=
  {[ "durable" := PBool true; "exclusive" := PBool false; "auto_delete" := PBool false ]}.

(** [cfg = dict(defaults)], then [cfg.update(x)] when [x] is a dict and
    [cfg[key] = x] otherwise. *)
Definition with_defaults (defaults : pydict) (key : string) (x : pyarg) : pydict :=
  match x with
  | Dict d => d ∪ defaults
  | Val v => <[key := v]> defaults
  end.

(** [x or d] on strings and on integers: the empty string, zero and [None]
    are false. *)
Definition or_str (x : option string) (d : string) : string :=
  match x with
  | Some s => if decide (s = "") then d else s
  | None => d
  end.

Definition or_int (x : option Z) (d : Z) : Z :=
  match x with
  | Some z => if decide (z = 0%Z) then d else z
  | None => d
  end.

(** ** Data of the program *)

(** A deferred handed out by [send_message], named by its allocation rank. *)
Definition handle := nat.
(** A callback of the application. *)
Definition handler := nat.

(** An entry of [queued_messages]:
    [(exchange, routing_key, msg, delivery_mode, immediate, mandatory, sent)]. *)
Record message := Message {
  m_exchange : pyarg;
  m_routing_key : string;
  m_msg : pyval;
  m_delivery_mode : Z;
  m_immediate : bool;
  m_mandatory : bool;
  m_sent : handle
}.

(** An entry of [read_list]:
    [(exchange, routing_key, callback, queue, no_ack)]. *)
Record subscription := Subscription {
  s_exchange : pyarg;
  s_routing_key : string;
  s_callback : handler;
  s_queue : pyarg;
  s_no_ack : bool
}.

(** A delivered message. *)
Record item := Item {
  delivery_tag : Z;
  body : string
}.

(** [txamqp.queue.Closed], or any other exception. *)
Inductive failure :=
| Closed
| Error (what : string).

(** The result a deferred fires with. *)
Inductive outcome :=
| Ok
| Fail (e : failure).

(** What the application's callback does with an item: it returns, it
    raises, or it returns a deferred that has not fired yet. *)
Inductive handler_result :=
| Returned
| Raised (e : failure)
| Deferred.

(** The calls into txamqp. *)
Inductive directive :=
| start (login password : string)
| channel (id : Z)
| channel_open
| basic_qos (prefetch_count : Z)
| exchange_declare (cfg : pydict)
| queue_declare (cfg : pydict)
| queue_bind (queue exchange : pyval) (routing_key : string)
| basic_consume (queue : pyval) (no_ack : bool) (consumer_tag : string)
| basic_publish (exchange : pyval) (routing_key : string) (content : pyval)
    (delivery_mode : Z) (immediate mandatory : bool)
| basic_ack (delivery_tag : Z).

(** What the program does towards the outside. *)
Inductive obs :=
| ConnectTCP (host : string) (port : Z)
| ConnectSSL (host : string) (port : Z)
| Reconnect
| Sent (d : directive)
| Get (consumer_tag : string)
| Called (callback : handler) (it : item)
| Resolved (sent : handle) (r : outcome)
| InitialFired
| Print (line : string).

(** A generator parked on the reply of a directive, with its live locals. *)
Inductive cont :=
| k_start
| k_channel
| k_channel_open
| k_basic_qos
| k_setup_read_1 (exchange_cfg : pydict) (queue : pyarg) (routing_key : string)
    (callback : handler) (no_ack : bool)
| k_setup_read_2 (exchange_cfg queue_cfg : pydict) (routing_key : string)
    (callback : handler) (no_ack : bool) (consumer_tag : string)
| k_setup_read_3 (queue_cfg : pydict) (callback : handler) (no_ack : bool)
    (consumer_tag : string)
| k_setup_read_4 (callback : handler) (no_ack : bool) (consumer_tag : string)
| k_send_message (exchange_cfg : pydict) (routing_key : string) (msg : pyval)
    (delivery_mode : Z) (immediate mandatory : bool) (callback : handle).

(** The attributes of an [AMQPProtocol] instance. *)
Record protocol := Protocol {
  prefetch_count : option Z;
  connected : bool;
  _consumer_tag : option nat;
  chan : option Z
}.

(** The arguments of [AMQPFactory.__init__]. *)
Record init_args := InitArgs {
  a_spec_file : option string;
  a_vhost : option string;
  a_host : option string;
  a_port : option Z;
  a_user : option string;
  a_password : option string;
  a_prefetch_count : option Z;
  a_heartbeat : Z;
  a_insist : bool;
  a_use_ssl : bool
}.

(** [AMQPFactory()] with every parameter at its default. *)
Definition no_args : init_args :=
  InitArgs None None None None None None None 0 false false.

(** The attributes [__init__] sets once. *)
Record config := Config {
  spec_file : string;
  user : string;
  password : string;
  vhost : string;
  host : string;
  port : Z;
  factory_prefetch_count : option Z;
  heartbeat : Z;
  insist : bool
}.

Record world := World {
  (* AMQPFactory *)
  cfg : config;
  initial_deferred_fired : bool;
  p : option protocol;
  queued_messages : list message;
  read_list : list subscription;
  (* ReconnectingClientFactory *)
  retries : nat;
  (* Twisted and txamqp *)
  established : bool;
  pending : list cont;
  publishing : list handle;
  waiters : gmap string (handler * bool);
  handling : list (item * bool);
  next_handle : handle;
  trace : list obs
}.

Definition set_fired (b : bool) (w : world) : world :=
  World (cfg w) b (p w) (queued_messages w) (read_list w) (retries w)
    (established w) (pending w) (publishing w) (waiters w) (handling w)
    (next_handle w) (trace w).

Definition set_p (x : option protocol) (w : world) : world :=
  World (cfg w) (initial_deferred_fired w) x (queued_messages w) (read_list w)
    (retries w) (established w) (pending w) (publishing w) (waiters w)
    (handling w) (next_handle w) (trace w).

Definition set_queued (l : list message) (w : world) : world :=
  World (cfg w) (initial_deferred_fired w) (p w) l (read_list w) (retries w)
    (established w) (pending w) (publishing w) (waiters w) (handling w)
    (next_handle w) (trace w).

Definition set_read_list (l : list subscription) (w : world) : world :=
  World (cfg w) (initial_deferred_fired w) (p w) (queued_messages w) l
    (retries w) (established w) (pending w) (publishing w) (waiters w)
    (handling w) (next_handle w) (trace w).

Definition set_retries (n : nat) (w : world) : world :=
  World (cfg w) (initial_deferred_fired w) (p w) (queued_messages w)
    (read_list w) n (established w) (pending w) (publishing w) (waiters w)
    (handling w) (next_handle w) (trace w).

Definition set_established (b : bool) (w : world) : world :=
  World (cfg w) (initial_deferred_fired w) (p w) (queued_messages w)
    (read_list w) (retries w) b (pending w) (publishing w) (waiters w)
    (handling w) (next_handle w) (trace w).

Definition set_pending (l : list cont) (w : world) : world :=
  World (cfg w) (initial_deferred_fired w) (p w) (queued_messages w)
    (read_list w) (retries w) (established w) l (publishing w) (waiters w)
    (handling w) (next_handle w) (trace w).

Definition set_publishing (l : list handle) (w : world) : world :=
  World (cfg w) (initial_deferred_fired w) (p w) (queued_messages w)
    (read_list w) (retries w) (established w) (pending w) l (waiters w)
    (handling w) (next_handle w) (trace w).

Definition set_waiters (m : gmap string (handler * bool)) (w : world) : world :=
  World (cfg w) (initial_deferred_fired w) (p w) (queued_messages w)
    (read_list w) (retries w) (established w) (pending w) (publishing w) m
    (handling w) (next_handle w) (trace w).

Definition set_handling (l : list (item * bool)) (w : world) : world :=
  World (cfg w) (initial_deferred_fired w) (p w) (queued_messages w)
    (read_list w) (retries w) (established w) (pending w) (publishing w)
    (waiters w) l (next_handle w) (trace w).

Definition set_next_handle (n : handle) (w : world) : world :=
  World (cfg w) (initial_deferred_fired w) (p w) (queued_messages w)
    (read_list w) (retries w) (established w) (pending w) (publishing w)
    (waiters w) (handling w) n (trace w).

Definition set_trace (l : list obs) (w : world) : world :=
  World (cfg w) (initial_deferred_fired w) (p w) (queued_messages w)
    (read_list w) (retries w) (established w) (pending w) (publishing w)
    (waiters w) (handling w) (next_handle w) l.

(** ** Twisted and txamqp, as the program uses them *)

Definition emit (o : obs) (w : world) : world :=
  set_trace (trace w ++ [o]) w.

(** A directive that has a reply: the frame is handed to the channel and the
    caller is parked behind the requests already outstanding.  txamqp matches
    the replies of a channel to its requests in the order they were made. *)
Definition invoke (d : directive) (k : cont) (w : world) : world :=
  set_pending (pending w ++ [k]) (emit (Sent d) w).

(** [d.addErrback(f)]: [f] runs on a failure, and what it returns is the new
    result of [d]. *)
Definition addErrback (f : failure → world → world * outcome)
    (r : outcome) (w : world) : world * outcome :=
  match r with
  | Ok => (w, Ok)
  | Fail e => f e w
  end.

(** [ReconnectingClientFactory.resetDelay] and [retry], on the count of
    retries that determines the delay. *)
Definition resetDelay (w : world) : world :=
  set_retries 0 w.

Definition retry (w : world) : world :=
  emit Reconnect (set_retries (S (retries w)) w).

(** ** class AMQPProtocol *)

Module AMQPProtocol.

(** The methods run on [self], the protocol object the factory holds. *)
Definition on_self (f : protocol → protocol) (w : world) : world :=
  set_p (f <$> p w) w.

Definition set_connected (b : bool) (self : protocol) : protocol :=
  Protocol (prefetch_count self) b (_consumer_tag self) (chan self).

Definition set_chan (c : option Z) (self : protocol) : protocol :=
  Protocol (prefetch_count self) (connected self) (_consumer_tag self) c.

Definition get_consumer_tag (self : protocol) : protocol * string :=
  let n := S (default 0 (_consumer_tag self)) in
  (Protocol (prefetch_count self) (connected self) (Some n) (chan self),
   pretty n).

Definition _channel_open_failed (error : failure) (w : world) : world :=
  emit (Print "Channel open failed:") w.

Definition _got_channel_failed (error : failure) (w : world) : world :=
  emit (Print "Error getting channel:") w.

Definition _authentication_failed (error : failure) (w : world) : world :=
  emit (Print "AMQP authentication failed:") w.

Definition connectionMade (w : world) : world :=
  invoke (start (user (cfg w)) (password (cfg w))) k_start
    (on_self (set_connected false) w).

Definition _authenticated (w : world) : world :=
  invoke (channel 1) k_channel w.

Definition _got_channel (w : world) : world :=
  invoke channel_open k_channel_open (on_self (set_chan (Some 1%Z)) w).

(** The first lines of [setup_read]: the queue name defaults to the exchange
    name by a write into the caller's dict.  [None] is the [KeyError] of
    [exchange['exchange']]. *)
Definition name_queue (exchange queue : pyarg) : option pyarg :=
  match queue with
  | Dict q =>
      match q !! "queue" with
      | Some _ => Some queue
      | None =>
          match exchange with
          | Dict e => (λ v, Dict (<["queue" := v]> q)) <$> e !! "exchange"
          | Val v => Some (Dict (<["queue" := v]> q))
          end
      end
  | Val _ => Some queue
  end.

(** [setup_read] up to its first [yield].  The second component is the
    [queue] argument as the call leaves it: the dict is updated in place, so
    the holder of the same object sees the new key.  An exception in the
    generator ends it: the deferred of [setup_read] fails and nobody looks at
    it. *)
Definition setup_read (exchange : pyarg) (routing_key : string)
    (callback : handler) (queue : pyarg) (no_ack : bool) (w : world)
    : world * pyarg :=
  match name_queue exchange queue with
  | None => (w, queue)
  | Some queue =>
      let exchange_cfg := with_defaults exchange_defaults "exchange" exchange in
      (invoke (exchange_declare exchange_cfg)
         (k_setup_read_1 exchange_cfg queue routing_key callback no_ack) w,
       queue)
  end.

Definition setup_read_after_exchange_declare (exchange_cfg : pydict)
    (queue : pyarg) (routing_key : string) (callback : handler)
    (no_ack : bool) (w : world) : world :=
  match p w with
  | None => w
  | Some self =>
      let '(self, consumer_tag) := get_consumer_tag self in
      let queue_cfg := with_defaults queue_defaults "queue" queue in
      invoke (queue_declare queue_cfg)
        (k_setup_read_2 exchange_cfg queue_cfg routing_key callback no_ack
           consumer_tag)
        (set_p (Some self) w)
  end.

Definition setup_read_after_queue_declare (exchange_cfg queue_cfg : pydict)
    (routing_key : string) (callback : handler) (no_ack : bool)
    (consumer_tag : string) (w : world) : world :=
  match queue_cfg !! "queue", exchange_cfg !! "exchange" with
  | Some q, Some e =>
      invoke (queue_bind q e routing_key)
        (k_setup_read_3 queue_cfg callback no_ack consumer_tag) w
  | _, _ => w
  end.

Definition setup_read_after_queue_bind (queue_cfg : pydict)
    (callback : handler) (no_ack : bool) (consumer_tag : string) (w : world)
    : world :=
  match queue_cfg !! "queue" with
  | Some q =>
      invoke (basic_consume q no_ack consumer_tag)
        (k_setup_read_4 callback no_ack consumer_tag) w
  | None => w
  end.

(** [d = queue.get()] with [_read_item], [_read_queue_closed] and
    [_read_item_err] attached. *)
Definition arm (consumer_tag : string) (callback : handler) (no_ack : bool)
    (w : world) : world :=
  set_waiters (<[consumer_tag := (callback, no_ack)]> (waiters w))
    (emit (Get consumer_tag) w).

Definition setup_read_after_basic_consume (callback : handler) (no_ack : bool)
    (consumer_tag : string) (w : world) : world :=
  arm consumer_tag callback no_ack w.

(** [_send_message] up to its [yield]. *)
Definition _send_message (m : message) (w : world) : world :=
  let exchange_cfg := with_defaults exchange_defaults "exchange" (m_exchange m) in
  invoke (exchange_declare exchange_cfg)
    (k_send_message exchange_cfg (m_routing_key m) (m_msg m)
       (m_delivery_mode m) (m_immediate m) (m_mandatory m) (m_sent m)) w.

(** The rest of [_send_message]: the publish goes out, and its deferred [d]
    gets the errback and the chain to [callback]. *)
Definition _send_message_after_exchange_declare (exchange_cfg : pydict)
    (routing_key : string) (msg : pyval) (delivery_mode : Z)
    (immediate mandatory : bool) (callback : handle) (w : world) : world :=
  match exchange_cfg !! "exchange" with
  | Some e =>
      set_publishing (publishing w ++ [callback])
        (emit (Sent (basic_publish e routing_key msg delivery_mode immediate
                       mandatory)) w)
  | None => w
  end.

(** The errback prints and returns nothing: the failure is consumed. *)
Definition _send_message_err (error : failure) (w : world) : world * outcome :=
  (emit (Print "Sending message failed") w, Ok).

(** [d] fires with [r]: [_send_message_err] on a failure, then
    [d.chainDeferred(callback)] passes on the result of [d]. *)
Definition publish_fired (callback : handle) (r : outcome) (w : world) : world :=
  let '(w, r) := addErrback _send_message_err r w in
  emit (Resolved callback r) w.

(** [failure.trap(txamqp.queue.Closed)] raises any other failure again. *)
Definition _read_queue_closed (e : failure) (w : world) : world * outcome :=
  match e with
  | Closed => (emit (Print "Queue closed") w, Ok)
  | _ => (w, Fail e)
  end.

Definition _read_item_err (error : failure) (w : world) : world * outcome :=
  (emit (Print "Error reading item: ") w, Ok).

(** The two errbacks that follow [_read_item] on every [queue.get()]. *)
Definition read_errbacks (r : outcome) (w : world) : world :=
  let '(w, r) := addErrback _read_queue_closed r w in
  fst (addErrback _read_item_err r w).

(** [_read_item] after [yield callback(item)]. *)
Definition _read_item_after_callback (it : item) (no_ack : bool) (w : world)
    : world :=
  if no_ack then w else emit (Sent (basic_ack (delivery_tag it))) w.

(** [_read_item], [queue] being the delivery queue of [consumer_tag] and
    [h] what [callback(item)] turns out to do. *)
Definition _read_item (it : item) (consumer_tag : string) (callback : handler)
    (no_ack : bool) (h : handler_result) (w : world) : world :=
  let w := arm consumer_tag callback no_ack w in
  let w := emit (Called callback it) w in
  match h with
  | Returned => _read_item_after_callback it no_ack w
  | Raised e => read_errbacks (Fail e) w
  | Deferred => set_handling (handling w ++ [(it, no_ack)]) w
  end.

(** The [while] loop of [send]: [l] is [queued_messages], and each turn pops
    its head before [_send_message] runs. *)
Fixpoint send_loop (l : list message) (w : world) : world :=
  match l with
  | [] => w
  | m :: l => send_loop l (_send_message m (set_queued l w))
  end.

Definition send (w : world) : world :=
  match p w with
  | Some self =>
      if connected self then send_loop (queued_messages w) w else w
  | None => w
  end.

Definition set_queue (queue : pyarg) (s : subscription) : subscription :=
  Subscription (s_exchange s) (s_routing_key s) (s_callback s) queue
    (s_no_ack s).

(** [for l in self.factory.read_list: self.setup_read( *l)], from entry [i]
    on.  The tuple holds the very dict [setup_read] writes into. *)
Fixpoint setup_reads (i : nat) (l : list subscription) (w : world) : world :=
  match l with
  | [] => w
  | s :: l =>
      let '(w, queue) :=
        setup_read (s_exchange s) (s_routing_key s) (s_callback s)
          (s_queue s) (s_no_ack s) w in
      setup_reads (S i) l
        (set_read_list (alter (set_queue queue) i (read_list w)) w)
  end.

(** [_channel_open] from the loop over [read_list] on: the session is ready. *)
Definition _channel_open_ready (w : world) : world :=
  let w := setup_reads 0 (read_list w) w in
  let w := send w in
  if initial_deferred_fired w then w
  else set_fired true (emit InitialFired w).

Definition truthy (x : option Z) : bool :=
  match x with
  | Some z => negb (Z.eqb z 0)
  | None => false
  end.

Definition _channel_open (w : world) : world :=
  let w := on_self (set_connected true) w in
  match p w with
  | Some self =>
      if truthy (prefetch_count self)
      then invoke (basic_qos (default 0%Z (prefetch_count self))) k_basic_qos w
      else _channel_open_ready w
  | None => w
  end.

Definition read (exchange : pyarg) (routing_key : string) (callback : handler)
    (queue : pyarg) (no_ack : bool) (w : world) : world * pyarg :=
  match p w with
  | Some self =>
      if connected self
      then setup_read exchange routing_key callback queue no_ack w
      else (w, queue)
  | None => (w, queue)
  end.

(** A parked generator gets the reply [r].  A failure is raised at the
    [yield]: in [_channel_open] it reaches the errback that follows it on the
    deferred of [channel_open]; in [setup_read] and [_send_message] it ends
    the generator. *)
Definition resume (k : cont) (r : outcome) (w : world) : world :=
  match k, r with
  | k_start, Ok => _authenticated w
  | k_start, Fail e => _authentication_failed e w
  | k_channel, Ok => _got_channel w
  | k_channel, Fail e => _got_channel_failed e w
  | k_channel_open, Ok => _channel_open w
  | k_channel_open, Fail e => _channel_open_failed e w
  | k_basic_qos, Ok => _channel_open_ready w
  | k_basic_qos, Fail e => _channel_open_failed e w
  | k_setup_read_1 exchange_cfg queue routing_key callback no_ack, Ok =>
      setup_read_after_exchange_declare exchange_cfg queue routing_key
        callback no_ack w
  | k_setup_read_2 exchange_cfg queue_cfg routing_key callback no_ack
      consumer_tag, Ok =>
      setup_read_after_queue_declare exchange_cfg queue_cfg routing_key
        callback no_ack consumer_tag w
  | k_setup_read_3 queue_cfg callback no_ack consumer_tag, Ok =>
      setup_read_after_queue_bind queue_cfg callback no_ack consumer_tag w
  | k_setup_read_4 callback no_ack consumer_tag, Ok =>
      setup_read_after_basic_consume callback no_ack consumer_tag w
  | k_send_message exchange_cfg routing_key msg delivery_mode immediate
      mandatory callback, Ok =>
      _send_message_after_exchange_declare exchange_cfg routing_key msg
        delivery_mode immediate mandatory callback w
  | _, Fail _ => w
  end.

End AMQPProtocol.

(** ** class AMQPFactory *)

Module AMQPFactory.

(** [__init__]: the attributes, then the connection attempt.  Loading the
    specification file is txamqp's. *)
Definition __init__ (a : init_args) : world :=
  let c :=
    Config (or_str (a_spec_file a) "amqp0-8.xml")
      (or_str (a_user a) "guest")
      (or_str (a_password a) "guest")
      (or_str (a_vhost a) "/")
      (or_str (a_host a) "localhost")
      (or_int (a_port a) 5672)
      (a_prefetch_count a) (a_heartbeat a) (a_insist a) in
  World c false None [] [] 0 false [] [] ∅ [] 0
    [if a_use_ssl a then ConnectSSL (host c) (port c)
     else ConnectTCP (host c) (port c)].

(** A new protocol object; it talks on a transport and a channel of its
    own, so nothing is outstanding for it. *)
Definition buildProtocol (w : world) : world :=
  let p := Protocol (factory_prefetch_count (cfg w)) false None None in
  let w := set_handling [] (set_waiters ∅ (set_pending [] w)) in
  resetDelay (set_p (Some p) w).

Definition clientConnectionFailed (w : world) : world :=
  retry (emit (Print "Connection failed.") w).

(** The protocol object is dropped, and with it whatever txamqp had not
    failed yet when the transport went away. *)
Definition clientConnectionLost (w : world) : world :=
  let w := emit (Print "Client connection lost.") w in
  let w := set_p None w in
  let w := set_handling [] (set_waiters ∅ (set_pending [] w)) in
  retry w.

(** [send_message]; [None] is the [AssertionError]. *)
Definition send_message (exchange : pyarg) (msg : pyval) (routing_key : string)
    (delivery_mode : Z) (immediate mandatory : bool) (w : world)
    : option (world * handle) :=
  if decide (exchange ≠ Val PNone ∧ msg ≠ PNone) then
    let sent := next_handle w in
    let w := set_next_handle (S sent) w in
    let w :=
      set_queued
        (queued_messages w ++
           [Message exchange routing_key msg delivery_mode immediate mandatory
              sent]) w in
    let w := match p w with Some _ => AMQPProtocol.send w | None => w end in
    Some (w, sent)
  else None.

(** [read]; [None] is the [AssertionError].  The tuple appended to
    [read_list] and the call into the protocol share the [queue] object. *)
Definition read (exchange : pyarg) (callback : option handler)
    (routing_key : string) (queue : pyarg) (no_ack : bool) (w : world)
    : option world :=
  match callback with
  | Some callback =>
      if decide (exchange ≠ Val PNone) then
        let i := length (read_list w) in
        let w :=
          set_read_list
            (read_list w ++
               [Subscription exchange routing_key callback queue no_ack]) w in
        match p w with
        | Some _ =>
            let '(w, queue) :=
              AMQPProtocol.read exchange routing_key callback queue no_ack w in
            Some (set_read_list
                    (alter (AMQPProtocol.set_queue queue) i (read_list w)) w)
        | None => Some w
        end
      else None
  | None => None
  end.

End AMQPFactory.

(** ** The transition system *)

Inductive event :=
(* the application *)
| Send (exchange : pyarg) (msg : pyval) (routing_key : string)
    (delivery_mode : Z) (immediate mandatory : bool)
| Read (exchange : pyarg) (callback : option handler) (routing_key : string)
    (queue : pyarg) (no_ack : bool)
(* the connector *)
| Connected
| ConnectFailed
| ConnectionLost
(* the channel answers its oldest outstanding request *)
| Reply (r : outcome)
(* the deferred of the [i]-th publish in flight fires *)
| Published (i : nat) (r : outcome)
(* the armed [queue.get()] of a consumer fires *)
| Delivered (consumer_tag : string) (it : item) (h : handler_result)
| GetFailed (consumer_tag : string) (e : failure)
(* the deferred of the [i]-th running handler fires *)
| HandlerDone (i : nat) (r : outcome).

(** The connector reports success or failure of an attempt only while one is
    under way, and a loss only of a connection it has made. *)
Definition step (ev : event) (w : world) : world :=
  match ev with
  | Send exchange msg routing_key delivery_mode immediate mandatory =>
      match AMQPFactory.send_message exchange msg routing_key delivery_mode
              immediate mandatory w with
      | Some (w, _) => w
      | None => w
      end
  | Read exchange callback routing_key queue no_ack =>
      default w (AMQPFactory.read exchange callback routing_key queue no_ack w)
  | Connected =>
      if established w then w
      else AMQPProtocol.connectionMade
             (AMQPFactory.buildProtocol (set_established true w))
  | ConnectFailed =>
      if established w then w else AMQPFactory.clientConnectionFailed w
  | ConnectionLost =>
      if established w
      then AMQPFactory.clientConnectionLost (set_established false w)
      else w
  | Reply r =>
      match pending w with
      | k :: l => AMQPProtocol.resume k r (set_pending l w)
      | [] => w
      end
  | Published i r =>
      match publishing w !! i with
      | Some callback =>
          AMQPProtocol.publish_fired callback r
            (set_publishing (delete i (publishing w)) w)
      | None => w
      end
  | Delivered consumer_tag it h =>
      match waiters w !! consumer_tag with
      | Some (callback, no_ack) =>
          AMQPProtocol._read_item it consumer_tag callback no_ack h
            (set_waiters (delete consumer_tag (waiters w)) w)
      | None => w
      end
  | GetFailed consumer_tag e =>
      match waiters w !! consumer_tag with
      | Some _ =>
          AMQPProtocol.read_errbacks (Fail e)
            (set_waiters (delete consumer_tag (waiters w)) w)
      | None => w
      end
  | HandlerDone i r =>
      match handling w !! i with
      | Some (it, no_ack) =>
          let w := set_handling (delete i (handling w)) w in
          match r with
          | Ok => AMQPProtocol._read_item_after_callback it no_ack w
          | Fail e => AMQPProtocol.read_errbacks (Fail e) w
          end
      | None => w
      end
  end.

Definition run (evs : list event) (w : world) : world :=
  foldl (λ w ev, step ev w) w evs.

(** [send_message] and [read] called with the defaults of their optional
    parameters. *)
Definition send_default (exchange : pyarg) (msg : pyval) : event :=
  Send exchange msg "" 2 false false.

Definition read_default (exchange : pyarg) (callback : option handler) : event :=
  Read exchange callback "" (Val PNone) true.

(** ** Vocabulary of the properties *)

(** The worlds a program run can be in. *)
Definition reachable (w : world) : Prop :=
  ∃ a evs, w = run evs (AMQPFactory.__init__ a).


(** The exchange declaration that opens [_send_message] and [setup_read]. *)
Definition declare (exchange : pyarg) : obs :=
  Sent (exchange_declare (with_defaults exchange_defaults "exchange" exchange)).

(** What [_send_message] parks for a message. *)
Definition msg_cont (m : message) : cont :=
  k_send_message (with_defaults exchange_defaults "exchange" (m_exchange m))
    (m_routing_key m) (m_msg m) (m_delivery_mode m) (m_immediate m)
    (m_mandatory m) (m_sent m).

(** The entry of [read_list] once [setup_read] has run on it, and what
    [setup_read] parks for it; nothing when it raises at once. *)
Definition sub_named (s : subscription) : subscription :=
  match AMQPProtocol.name_queue (s_exchange s) (s_queue s) with
  | Some q => AMQPProtocol.set_queue q s
  | None => s
  end.

Definition sub_cont (s : subscription) : option cont :=
  (λ q, k_setup_read_1
          (with_defaults exchange_defaults "exchange" (s_exchange s)) q
          (s_routing_key s) (s_callback s) (s_no_ack s))
    <$> AMQPProtocol.name_queue (s_exchange s) (s_queue s).

Definition sub_declare (s : subscription) : option obs :=
  (λ _, declare (s_exchange s))
    <$> AMQPProtocol.name_queue (s_exchange s) (s_queue s).

(** The publish a message leads to; none when its exchange dict has no
    ['exchange'] entry. *)
Definition msg_publish (m : message) : option directive :=
  (λ e, basic_publish e (m_routing_key m) (m_msg m) (m_delivery_mode m)
          (m_immediate m) (m_mandatory m))
    <$> with_defaults exchange_defaults "exchange" (m_exchange m) !! "exchange".

Definition cont_publish (k : cont) : option directive :=
  match k with
  | k_send_message exchange_cfg routing_key msg delivery_mode immediate
      mandatory _ =>
      (λ e, basic_publish e routing_key msg delivery_mode immediate mandatory)
        <$> exchange_cfg !! "exchange"
  | _ => None
  end.

(** The publishes, and the consumer starts, of a trace. *)
Definition is_publish (o : obs) : option directive :=
  match o with
  | Sent (basic_publish e k c d i m) => Some (basic_publish e k c d i m)
  | _ => None
  end.

Definition published (t : list obs) : list directive := omap is_publish t.

Definition is_consume (o : obs) : option directive :=
  match o with
  | Sent (basic_consume q a t) => Some (basic_consume q a t)
  | _ => None
  end.

Definition consumed (t : list obs) : list directive := omap is_consume t.

(** The publishes the accepted [send_message] calls of a run ask for. *)
Definition offered (evs : list event) : list directive :=
  omap (λ ev,
          match ev with
          | Send exchange msg routing_key delivery_mode immediate mandatory =>
              if decide (exchange ≠ Val PNone ∧ msg ≠ PNone)
              then msg_publish
                     (Message exchange routing_key msg delivery_mode immediate
                        mandatory 0)
              else None
          | _ => None
          end) evs.

(** The connection is up as far as the code can tell: the factory holds a
    protocol whose [connected] flag is set. *)
Definition is_ready (w : world) : bool :=
  match p w with
  | Some self => connected self
  | None => false
  end.

(** [n] successive calls of [get_consumer_tag], with the tags they return. *)
Fixpoint consumer_tags (n : nat) (self : protocol) : protocol * list string :=
  match n with
  | 0 => (self, [])
  | S n =>
      let '(self, t) := AMQPProtocol.get_consumer_tag self in
      let '(self, ts) := consumer_tags n self in
      (self, t :: ts)
  end.

(** What the errback of a handshake step prints. *)
Definition handshake_errback (k : cont) : option string :=
  match k with
  | k_start => Some "AMQP authentication failed:"
  | k_channel => Some "Error getting channel:"
  | k_channel_open => Some "Channel open failed:"
  | k_basic_qos => Some "Channel open failed:"
  | _ => None
  end.

(** ** Sample worlds *)

(** A new factory whose connection attempt has succeeded: the login is out. *)
Definition sample_authenticating : world :=
  run [Connected] (AMQPFactory.__init__ no_args).

(** The handshake is through: the session is ready, with nothing to replay. *)
Definition sample_ready : world :=
  run (replicate 3 (Reply Ok)) sample_authenticating.

(** A message sent on the ready session: its exchange declaration is out. *)
Definition sample_declaring : world :=
  step (send_default (Val (PStr "orders")) (PStr "hello")) sample_ready.

(** The declaration has succeeded: the publish is in flight. *)
Definition sample_publishing : world :=
  step (Reply Ok) sample_declaring.

(** What the two errbacks behind [_read_item] print for a failure. *)
Definition read_failure_line (e : failure) : string :=
  match e with
  | Closed => "Queue closed"
  | Error _ => "Error reading item: "
  end.

(** A subscription with manual acknowledgement is consuming on the ready
    session: the four directives of [setup_read] have succeeded. *)
Definition sample_consuming : world :=
  run (Read (Val (PStr "orders")) (Some 7) "" (Dict ∅) false ::
       replicate 4 (Reply Ok)) sample_ready.

(** An item has arrived and its handler has returned a deferred. *)
Definition sample_handling : world :=
  step (Delivered "1" (Item 42 "hello") Deferred) sample_consuming.




(** The opening of the channel has just been answered on a factory with a
    prefetch count: the QoS setting is out, its reply is not in yet. *)
Definition sample_qos_window : world :=
  run (Connected :: replicate 3 (Reply Ok))
    (AMQPFactory.__init__
       (InitArgs None None None None None None (Some 10%Z) 0 false false)).

(** The firings of the initial deferred in a trace. *)
Definition is_initial_fired (o : obs) : option unit :=
  match o with
  | InitialFired => Some ()
  | _ => None
  end.

(** The handles a trace resolves, with the results. *)
Definition is_resolved (o : obs) : option (handle * outcome) :=
  match o with
  | Resolved h r => Some (h, r)
  | _ => None
  end.

Definition resolved (t : list obs) : list (handle * outcome) :=
  omap is_resolved t.

(** The handle a parked [_send_message] is to resolve. *)
Definition cont_handle (k : cont) : option handle :=
  match k with
  | k_send_message _ _ _ _ _ _ callback => Some callback
  | _ => None
  end.

(** The handles the program holds or has resolved: in a resolution of the
    trace, on a publish in flight, in a parked [_send_message], or in the
    queue. *)
Definition handles (w : world) : list handle :=
  (fst <$> resolved (trace w)) ++ publishing w ++
  omap cont_handle (pending w) ++ (m_sent <$> queued_messages w).


(** The subscriptions the accepted [read] calls of a run ask for. *)
Definition subscribed (evs : list event) : list subscription :=
  omap (λ ev,
          match ev with
          | Read exchange (Some callback) routing_key queue no_ack =>
              if decide (exchange ≠ Val PNone)
              then Some (Subscription exchange routing_key callback queue
                           no_ack)
              else None
          | _ => None
          end) evs.

(** The directives of a trace. *)
Definition is_sent (o : obs) : option directive :=
  match o with
  | Sent d => Some d
  | _ => None
  end.

Definition sent (t : list obs) : list directive := omap is_sent t.

(** The login of the first connection has been refused. *)
Definition sample_refused : world :=
  step (Reply (Fail (Error "refused"))) sample_authenticating.



(** The handle of a message whose publish goes out. *)
Definition msg_handle (m : message) : option handle :=
  (λ _, m_sent m) <$> msg_publish m.


(** ** Basic facts *)

(** Record updates are unfolded innermost first. *)
Ltac wsimpl :=
  cbv beta iota zeta delta
    [set_fired set_p set_queued set_read_list set_retries set_established
     set_pending set_publishing set_waiters set_handling set_next_handle
     set_trace emit invoke resetDelay retry
     cfg initial_deferred_fired p queued_messages read_list retries
     established pending publishing waiters handling next_handle trace] in *.

Ltac destruct_world w :=
  destruct w as [c f pr qm rl re es pe pu wa ha nh tr].



Lemma run_snoc (evs : list event) (ev : event) (w : world) :
  run (evs ++ [ev]) w = step ev (run evs w).
Proof. unfold run. by rewrite foldl_snoc. Qed.

Lemma run_cons (ev : event) (evs : list event) (w : world) :
  run (ev :: evs) w = run evs (step ev w).
Proof. reflexivity. Qed.

(** Reachability is an induction principle. *)
Lemma reachable_ind (P : world → Prop) :
  (∀ a, P (AMQPFactory.__init__ a)) →
  (∀ ev w, reachable w → P w → P (step ev w)) →
  ∀ w, reachable w → P w.
Proof.
  intros Hinit Hstep w (a & evs & ->).
  induction evs as [|ev evs IH] using rev_ind; [apply Hinit|].
  rewrite run_snoc. apply Hstep; [by exists a, evs | done].
Qed.

Lemma reachable_step (ev : event) (w : world) :
  reachable w → reachable (step ev w).
Proof. intros (a & evs & ->). exists a, (evs ++ [ev]). by rewrite run_snoc. Qed.

Lemma reachable_run (evs : list event) (w : world) :
  reachable w → reachable (run evs w).
Proof.
  revert w. induction evs as [|ev evs IH]; intros w Hw; [done|].
  apply IH, reachable_step, Hw.
Qed.

(** The drain loop hands over the whole queue, in order. *)
Lemma send_loop_eq (l : list message) (w : world) :
  AMQPProtocol.send_loop l w =
  set_queued (match l with [] => queued_messages w | _ => [] end)
    (set_pending (pending w ++ map msg_cont l)
       (set_trace (trace w ++ map (λ m, declare (m_exchange m)) l) w)).
Proof.
  revert w. induction l as [|m l IH]; intros w.
  - destruct w; simpl. by rewrite !app_nil_r.
  - simpl. rewrite IH. destruct w; simpl.
    unfold set_queued, set_pending, set_trace; simpl.
    rewrite <- !app_assoc. simpl. by destruct l.
Qed.

Lemma send_eq (w : world) (self : protocol) :
  p w = Some self → connected self = true →
  AMQPProtocol.send w =
  set_queued []
    (set_pending (pending w ++ map msg_cont (queued_messages w))
       (set_trace
          (trace w ++ map (λ m, declare (m_exchange m)) (queued_messages w))
          w)).
Proof.
  intros Hp Hc. unfold AMQPProtocol.send. rewrite Hp, Hc, send_loop_eq.
  destruct w; simpl. by destruct queued_messages0.
Qed.

Lemma send_idle (w : world) :
  (∀ self, p w = Some self → connected self = false) →
  AMQPProtocol.send w = w.
Proof.
  intros H. unfold AMQPProtocol.send. destruct (p w) as [self|]; [|done].
  by rewrite (H self).
Qed.

(** The loop over [read_list] starts [setup_read] on every entry, in order. *)
Lemma setup_reads_eq (l pre : list subscription) (w : world) :
  read_list w = pre ++ l →
  AMQPProtocol.setup_reads (length pre) l w =
  set_read_list (pre ++ map sub_named l)
    (set_pending (pending w ++ omap sub_cont l)
       (set_trace (trace w ++ omap sub_declare l) w)).
Proof.
  revert pre w. induction l as [|s l IH]; intros pre w Hrl.
  - destruct w; simpl in *. subst. by rewrite !app_nil_r.
  - simpl. unfold AMQPProtocol.setup_read, sub_named, sub_cont, sub_declare.
    destruct (AMQPProtocol.name_queue (s_exchange s) (s_queue s)) as [q|] eqn:Hq;
      simpl.
    + specialize (IH (pre ++ [AMQPProtocol.set_queue q s])).
      rewrite length_app, Nat.add_1_r in IH. rewrite IH.
      * destruct w; simpl in *. subst.
        unfold set_read_list, set_pending, set_trace; simpl.
        by rewrite <- !app_assoc.
      * destruct w; simpl in *. subst.
        rewrite <- (Nat.add_0_r (length pre)), alter_app_r. simpl.
        by rewrite <- app_assoc.
    + specialize (IH (pre ++ [s])).
      rewrite length_app, Nat.add_1_r in IH. rewrite IH.
      * destruct w; simpl in *. subst.
        unfold set_read_list, set_pending, set_trace; simpl.
        by rewrite <- !app_assoc.
      * destruct w; simpl in *. subst.
        rewrite <- (Nat.add_0_r (length pre)), alter_app_r. simpl.
        rewrite <- app_assoc. simpl. by destruct s.
Qed.

(** ** Construction *)

(** C10. Constructed without explicit parameters, the factory takes user
    "guest", password "guest", vhost "/", host "localhost", port 5672 and
    the specification file "amqp0-8.xml"; and whatever the parameters,
    construction itself starts exactly one connection attempt, over SSL when
    asked and over TCP otherwise, to the host and port it settled on, with no
    protocol object, no queued message and no subscription yet. *)
Theorem init_defaults_and_connects :
  cfg (AMQPFactory.__init__ no_args) =
    Config "amqp0-8.xml" "guest" "guest" "/" "localhost" 5672 None 0 false
  ∧ trace (AMQPFactory.__init__ no_args) = [ConnectTCP "localhost" 5672]
  ∧ ∀ a : init_args,
      let w := AMQPFactory.__init__ a in
      trace w =
        [if a_use_ssl a then ConnectSSL (host (cfg w)) (port (cfg w))
         else ConnectTCP (host (cfg w)) (port (cfg w))]
      ∧ p w = None ∧ established w = false
      ∧ queued_messages w = [] ∧ read_list w = [] ∧ pending w = [].
Proof.
  split; [reflexivity|]. split; [reflexivity|].
  intros a w. by repeat split.
Qed.

(** ** The application-facing calls *)

Lemma send_ready (w : world) :
  is_ready w = true →
  AMQPProtocol.send w =
  set_queued []
    (set_pending (pending w ++ map msg_cont (queued_messages w))
       (set_trace
          (trace w ++ map (λ m, declare (m_exchange m)) (queued_messages w))
          w)).
Proof.
  unfold is_ready. destruct (p w) as [self|] eqn:Hp; [|done].
  intros Hc. by eapply send_eq.
Qed.

Lemma send_not_ready (w : world) :
  is_ready w = false → AMQPProtocol.send w = w.
Proof.
  unfold is_ready. intros H. apply send_idle. intros self Hp.
  by rewrite Hp in H.
Qed.

Lemma send_message_eq (exchange : pyarg) (msg : pyval) (routing_key : string)
    (delivery_mode : Z) (immediate mandatory : bool) (w : world) :
  exchange ≠ Val PNone → msg ≠ PNone →
  AMQPFactory.send_message exchange msg routing_key delivery_mode immediate
    mandatory w =
  Some
    (let m := Message exchange routing_key msg delivery_mode immediate
                mandatory (next_handle w) in
     let w := set_next_handle (S (next_handle w)) w in
     if is_ready w
     then set_queued []
            (set_pending (pending w ++ map msg_cont (queued_messages w ++ [m]))
               (set_trace
                  (trace w ++
                     map (λ m, declare (m_exchange m)) (queued_messages w ++ [m]))
                  w))
     else set_queued (queued_messages w ++ [m]) w,
     next_handle w).
Proof.
  intros He Hm. unfold AMQPFactory.send_message.
  rewrite decide_True by done. simpl. f_equal. f_equal.
  unfold is_ready.
  destruct w as [? ? [self|] ? ? ? ? ? ? ? ? ? ?]; simpl; [|done].
  destruct (connected self) eqn:Hc.
  - erewrite send_eq; [|reflexivity|done]. done.
  - rewrite send_idle; [done|]. simpl. by intros ? [= <-].
Qed.

Lemma read_eq (exchange : pyarg) (callback : handler) (routing_key : string)
    (queue : pyarg) (no_ack : bool) (w : world) :
  exchange ≠ Val PNone →
  AMQPFactory.read exchange (Some callback) routing_key queue no_ack w =
  Some
    (let s := Subscription exchange routing_key callback queue no_ack in
     if is_ready w
     then set_read_list (read_list w ++ [sub_named s])
            (set_pending (pending w ++ option_list (sub_cont s))
               (set_trace (trace w ++ option_list (sub_declare s)) w))
     else set_read_list (read_list w ++ [s]) w).
Proof.
  intros He. unfold AMQPFactory.read. rewrite decide_True by done.
  unfold is_ready, AMQPProtocol.read, AMQPProtocol.setup_read, sub_named,
    sub_cont, sub_declare.
  destruct w as [? ? [self|] ? rl ? ? ? ? ? ? ? ?]; simpl; [|done].
  destruct (connected self); simpl.
  - destruct (AMQPProtocol.name_queue exchange queue) as [q|]; simpl.
    + unfold set_read_list, set_pending, set_trace, invoke, emit; simpl.
      rewrite <- (Nat.add_0_r (length rl)), alter_app_r. done.
    + unfold set_read_list; simpl.
      rewrite <- (Nat.add_0_r (length rl)), alter_app_r. by rewrite !app_nil_r.
  - unfold set_read_list; simpl.
    rewrite <- (Nat.add_0_r (length rl)), alter_app_r. done.
Qed.

(** C9. [send_message] fails at once exactly when the exchange or the
    payload is absent, and [read] exactly when the exchange or the callback
    is absent.  Otherwise, in every world, the call returns: the message
    gets a fresh handle and is either buffered at the end of the queue, the
    rest of the world untouched, or, the protocol being connected, the whole
    queue with it is handed to the protocol; the subscription is appended to
    the list and, the protocol being connected, started on it at once. *)
Theorem send_and_read_accept (w : world) :
  (∀ exchange msg routing_key delivery_mode immediate mandatory,
     (AMQPFactory.send_message exchange msg routing_key delivery_mode immediate
        mandatory w = None ↔ exchange = Val PNone ∨ msg = PNone)
     ∧ ((exchange = Val PNone ∨ msg = PNone) ∨
        ∃ w',
          AMQPFactory.send_message exchange msg routing_key delivery_mode
            immediate mandatory w = Some (w', next_handle w)
          ∧ let m := Message exchange routing_key msg delivery_mode immediate
                       mandatory (next_handle w) in
            if is_ready w
            then queued_messages w' = []
                 ∧ pending w' =
                     pending w ++ map msg_cont (queued_messages w ++ [m])
            else queued_messages w' = queued_messages w ++ [m]
                 ∧ pending w' = pending w ∧ trace w' = trace w))
  ∧ (∀ exchange callback routing_key queue no_ack,
       (AMQPFactory.read exchange callback routing_key queue no_ack w = None
        ↔ exchange = Val PNone ∨ callback = None)
       ∧ ((exchange = Val PNone ∨ callback = None) ∨
          ∃ w' f,
            callback = Some f
            ∧ AMQPFactory.read exchange callback routing_key queue no_ack w
              = Some w'
            ∧ let s := Subscription exchange routing_key f queue no_ack in
              if is_ready w
              then read_list w' = read_list w ++ [sub_named s]
                   ∧ pending w' = pending w ++ option_list (sub_cont s)
                   ∧ trace w' = trace w ++ option_list (sub_declare s)
              else read_list w' = read_list w ++ [s]
                   ∧ pending w' = pending w ∧ trace w' = trace w)).
Proof.
  split.
  - intros exchange msg routing_key delivery_mode immediate mandatory.
    destruct (decide (exchange = Val PNone)) as [->|He].
    { split; [|by left; left]. split; [by left|]. intros _.
      unfold AMQPFactory.send_message. rewrite decide_False; [done|].
      by intros [? _]. }
    destruct (decide (msg = PNone)) as [->|Hm].
    { split; [|by left; right]. split; [by right|]. intros _.
      unfold AMQPFactory.send_message. rewrite decide_False; [done|].
      by intros [_ ?]. }
    rewrite send_message_eq by done. split.
    + split; [done|]. by intros [?|?].
    + right. eexists. split; [reflexivity|]. simpl.
      replace (is_ready (set_next_handle (S (next_handle w)) w))
        with (is_ready w) by done.
      by destruct (is_ready w).
  - intros exchange callback routing_key queue no_ack.
    destruct callback as [f|].
    2:{ split; [|by left; right]. split; [by right|]. done. }
    destruct (decide (exchange = Val PNone)) as [->|He].
    { split; [|by left; left]. split; [by left|]. intros _.
      unfold AMQPFactory.read. by rewrite decide_False by (by intros ?). }
    rewrite read_eq by done. split.
    + split; [done|]. by intros [?|?].
    + right. eexists _, f. split; [done|]. split; [reflexivity|]. simpl.
      by destruct (is_ready w).
Qed.

(** ** Entering the ready state *)

Lemma channel_open_ready_eq (w : world) :
  is_ready w = true →
  AMQPProtocol._channel_open_ready w =
  set_fired true
    (set_queued []
       (set_read_list (map sub_named (read_list w))
          (set_pending
             (pending w ++ omap sub_cont (read_list w) ++
                map msg_cont (queued_messages w))
             (set_trace
                (trace w ++ omap sub_declare (read_list w) ++
                   map (λ m, declare (m_exchange m)) (queued_messages w) ++
                   (if initial_deferred_fired w then [] else [InitialFired]))
                w)))).
Proof.
  intros Hr. unfold AMQPProtocol._channel_open_ready.
  pose proof (setup_reads_eq (read_list w) [] w eq_refl) as H.
  simpl in H. rewrite H. clear H.
  rewrite send_ready by done.
  destruct_world w. wsimpl.
  destruct f; rewrite <- ?app_assoc; by rewrite ?app_nil_r.
Qed.

(** ** Consumer tags *)

Lemma consumer_tags_eq (n : nat) (self : protocol) :
  consumer_tags n self =
  (match n with
   | 0 => self
   | S _ =>
       Protocol (prefetch_count self) (connected self)
         (Some (default 0 (_consumer_tag self) + n)) (chan self)
   end,
   pretty <$> seq (S (default 0 (_consumer_tag self))) n).
Proof.
  revert self. induction n as [|n IH]; intros self; [done|].
  simpl. rewrite IH. simpl. f_equal.
  - destruct n; simpl; do 2 f_equal; lia.
Qed.

(** X1. [get_consumer_tag] numbers the consumers of a protocol object from
    the attribute it keeps: [n] successive calls return the decimal
    numerals that follow the current count (from "1" on a new protocol
    object), so the tags of one protocol are pairwise different, and the
    calls touch no other attribute. *)
Theorem consumer_tags_count_up (n : nat) (self : protocol) :
  let c := default 0 (_consumer_tag self) in
  let '(self', tags) := consumer_tags n self in
  tags = pretty <$> seq (S c) n
  ∧ NoDup tags
  ∧ default 0 (_consumer_tag self') = c + n
  ∧ prefetch_count self' = prefetch_count self
  ∧ connected self' = connected self
  ∧ chan self' = chan self.
Proof.
  rewrite consumer_tags_eq. cbv zeta. split; [done|]. split.
  - apply NoDup_fmap_2; [apply _|apply NoDup_seq].
  - destruct n; simpl; repeat split; lia.
Qed.

(** ** The body of the steps *)

(** The methods without a loop, unfolded together. *)
Ltac unfold_model :=
  cbv beta iota zeta delta
   [AMQPProtocol.resume AMQPProtocol._authenticated
    AMQPProtocol._authentication_failed AMQPProtocol._got_channel
    AMQPProtocol._got_channel_failed AMQPProtocol._channel_open_failed
    AMQPProtocol.setup_read_after_exchange_declare
    AMQPProtocol.setup_read_after_queue_declare
    AMQPProtocol.setup_read_after_queue_bind
    AMQPProtocol.setup_read_after_basic_consume
    AMQPProtocol._send_message_after_exchange_declare
    AMQPProtocol.publish_fired AMQPProtocol._read_item
    AMQPProtocol._read_item_after_callback AMQPProtocol.read_errbacks
    AMQPProtocol._read_queue_closed AMQPProtocol._read_item_err
    AMQPProtocol._send_message_err AMQPProtocol.arm
    AMQPProtocol.connectionMade AMQPProtocol.get_consumer_tag
    AMQPProtocol.on_self AMQPProtocol.set_connected AMQPProtocol.set_chan
    AMQPFactory.buildProtocol AMQPFactory.clientConnectionFailed
    AMQPFactory.clientConnectionLost addErrback is_ready fst snd] in *.

(** Without a connected protocol the ready body still walks [read_list];
    [send] then does nothing. *)
Lemma channel_open_ready_eq_gen (w : world) :
  AMQPProtocol._channel_open_ready w =
  let q := if is_ready w then queued_messages w else [] in
  set_fired true
    (set_queued (if is_ready w then [] else queued_messages w)
       (set_read_list (map sub_named (read_list w))
          (set_pending
             (pending w ++ omap sub_cont (read_list w) ++ map msg_cont q)
             (set_trace
                (trace w ++ omap sub_declare (read_list w) ++
                   map (λ m, declare (m_exchange m)) q ++
                   (if initial_deferred_fired w then [] else [InitialFired]))
                w)))).
Proof.
  destruct (is_ready w) eqn:Hr.
  - by rewrite channel_open_ready_eq.
  - unfold AMQPProtocol._channel_open_ready.
    pose proof (setup_reads_eq (read_list w) [] w eq_refl) as H.
    simpl in H. rewrite H. clear H.
    rewrite send_not_ready by (by destruct_world w).
    destruct_world w. wsimpl. simpl.
    destruct f; rewrite <- ?app_assoc; by rewrite ?app_nil_r.
Qed.

Lemma channel_open_eq (w : world) (self : protocol) :
  p w = Some self →
  AMQPProtocol._channel_open w =
  let w1 := set_p (Some (AMQPProtocol.set_connected true self)) w in
  if AMQPProtocol.truthy (prefetch_count self)
  then invoke (basic_qos (default 0%Z (prefetch_count self))) k_basic_qos w1
  else AMQPProtocol._channel_open_ready w1.
Proof.
  intros Hp. unfold AMQPProtocol._channel_open, AMQPProtocol.on_self.
  rewrite Hp. destruct_world w. by wsimpl.
Qed.

Lemma channel_open_none (w : world) :
  p w = None → AMQPProtocol._channel_open w = w.
Proof.
  intros Hp. unfold AMQPProtocol._channel_open, AMQPProtocol.on_self.
  rewrite Hp. destruct_world w. wsimpl. simpl in Hp. by subst.
Qed.

(** ** Failures on the channel *)

(** X2. When the reply to a handshake directive (the login, the channel,
    its opening, the QoS setting) is a failure, the errback of that step
    prints its line and nothing else happens: the factory keeps the
    protocol object, the transport stays established, no reconnection is
    asked for and the retry count, the queue and the subscription list are
    as before. *)
Theorem handshake_failure_only_prints (w : world) (k : cont) (l : list cont)
    (e : failure) (line : string) :
  pending w = k :: l →
  handshake_errback k = Some line →
  let w' := step (Reply (Fail e)) w in
  trace w' = trace w ++ [Print line]
  ∧ pending w' = l
  ∧ p w' = p w
  ∧ established w' = established w
  ∧ retries w' = retries w
  ∧ queued_messages w' = queued_messages w
  ∧ read_list w' = read_list w
  ∧ initial_deferred_fired w' = initial_deferred_fired w.
Proof.
  intros Hpe Hk. destruct_world w. unfold step. wsimpl. subst pe.
  destruct k; simplify_eq/=; unfold_model; by wsimpl.
Qed.

Lemma handshake_failure_only_prints_witness :
  let w := sample_authenticating in
  let w' := step (Reply (Fail (Error "refused"))) w in
  trace w' = trace w ++ [Print "AMQP authentication failed:"]
  ∧ pending w' = []
  ∧ p w' = p w
  ∧ established w' = established w
  ∧ retries w' = retries w
  ∧ queued_messages w' = queued_messages w
  ∧ read_list w' = read_list w
  ∧ initial_deferred_fired w' = initial_deferred_fired w.
Proof.
  exact (handshake_failure_only_prints sample_authenticating k_start []
           (Error "refused") "AMQP authentication failed:" eq_refl eq_refl).
Defined.

(** X3. Whatever the deferred of a publish fires with, the handle of the
    message is resolved with a success: on a failure [_send_message_err]
    prints its line and, returning nothing, turns the failure into the
    result [None] that [chainDeferred] passes on.  The message is not put
    back into the queue and nothing else of the session changes. *)
Theorem publish_result_resolves_ok (w : world) (i : nat) (h : handle)
    (r : outcome) :
  publishing w !! i = Some h →
  let w' := step (Published i r) w in
  trace w' =
    trace w ++
      match r with
      | Ok => [Resolved h Ok]
      | Fail _ => [Print "Sending message failed"; Resolved h Ok]
      end
  ∧ publishing w' = delete i (publishing w)
  ∧ queued_messages w' = queued_messages w
  ∧ pending w' = pending w
  ∧ p w' = p w
  ∧ established w' = established w.
Proof.
  intros Hi. destruct_world w. unfold step. wsimpl. rewrite Hi.
  destruct r; unfold_model; wsimpl; by rewrite <- ?app_assoc.
Qed.

Lemma publish_result_resolves_ok_witness :
  let w := sample_publishing in
  let w' := step (Published 0 (Fail (Error "no route"))) w in
  trace w' = trace w ++ [Print "Sending message failed"; Resolved 0 Ok]
  ∧ publishing w' = delete 0 (publishing w)
  ∧ queued_messages w' = queued_messages w
  ∧ pending w' = pending w
  ∧ p w' = p w
  ∧ established w' = established w.
Proof.
  exact (publish_result_resolves_ok sample_publishing 0 0
           (Fail (Error "no route")) eq_refl).
Defined.

(** X4. When the exchange declaration of a message fails, the generator
    of [_send_message] ends at its [yield]: the message is neither published
    nor put back into the queue, its handle is never resolved by this call,
    and nothing is printed; the requests behind it stay outstanding. *)
Theorem declare_failure_drops_message (w : world) (exchange_cfg : pydict)
    (routing_key : string) (msg : pyval) (delivery_mode : Z)
    (immediate mandatory : bool) (h : handle) (l : list cont) (e : failure) :
  pending w =
    k_send_message exchange_cfg routing_key msg delivery_mode immediate
      mandatory h :: l →
  let w' := step (Reply (Fail e)) w in
  trace w' = trace w
  ∧ publishing w' = publishing w
  ∧ queued_messages w' = queued_messages w
  ∧ pending w' = l
  ∧ p w' = p w.
Proof.
  intros Hpe. destruct_world w. unfold step. wsimpl. subst pe.
  unfold_model. by wsimpl.
Qed.

Lemma declare_failure_drops_message_witness :
  let w := sample_declaring in
  let w' := step (Reply (Fail (Error "access refused"))) w in
  trace w' = trace w
  ∧ publishing w' = publishing w
  ∧ queued_messages w' = queued_messages w
  ∧ pending w' = []
  ∧ p w' = p w.
Proof.
  exact (declare_failure_drops_message sample_declaring _ _ _ _ _ _ _ []
           (Error "access refused") eq_refl).
Defined.

(** ** The delivery loop *)

(** X5. When an item arrives for a consumer, [_read_item] first asks the
    queue for the following item and only then calls the handler; the
    consumer is armed again with the same handler and acknowledgement mode.
    A handler that returns is followed by the acknowledgement of the item
    exactly when [no_ack] is false; a handler that returns a deferred is
    followed by nothing yet; a handler that raises gets no acknowledgement,
    its exception is printed by the errbacks and the loop stays armed. *)
Theorem delivery_rearms_then_calls (w : world) (consumer_tag : string)
    (it : item) (h : handler_result) (callback : handler) (no_ack : bool) :
  waiters w !! consumer_tag = Some (callback, no_ack) →
  let w' := step (Delivered consumer_tag it h) w in
  trace w' =
    trace w ++ [Get consumer_tag; Called callback it] ++
      match h with
      | Returned => if no_ack then [] else [Sent (basic_ack (delivery_tag it))]
      | Raised e => [Print (read_failure_line e)]
      | Deferred => []
      end
  ∧ waiters w' = waiters w
  ∧ handling w' =
      handling w ++ match h with Deferred => [(it, no_ack)] | _ => [] end
  ∧ pending w' = pending w
  ∧ p w' = p w.
Proof.
  intros Hw. destruct_world w. unfold step. wsimpl. rewrite Hw.
  assert (<[consumer_tag:=(callback, no_ack)]> (delete consumer_tag wa) = wa)
    as Hre by (by rewrite insert_delete_eq, insert_id).
  unfold_model. wsimpl.
  destruct h as [|[|?]|]; try destruct no_ack; wsimpl; simpl;
    rewrite ?Hre, <- ?app_assoc, ?app_nil_r; done.
Qed.

Lemma delivery_rearms_then_calls_witness :
  let w := sample_consuming in
  let w' := step (Delivered "1" (Item 42 "hello") Returned) w in
  trace w' =
    trace w ++ [Get "1"; Called 7 (Item 42 "hello")] ++ [Sent (basic_ack 42)]
  ∧ waiters w' = waiters w
  ∧ handling w' = handling w ++ []
  ∧ pending w' = pending w
  ∧ p w' = p w.
Proof.
  exact (delivery_rearms_then_calls sample_consuming "1" (Item 42 "hello")
           Returned 7 false eq_refl).
Defined.

(** X6. When the deferred a handler returned fires, the item is
    acknowledged then, and only if the handler succeeded and [no_ack] is
    false; a failure of the handler is printed and the item stays
    unacknowledged.  The consumers stay armed. *)
Theorem deferred_handler_acks_on_completion (w : world) (i : nat) (it : item)
    (no_ack : bool) (r : outcome) :
  handling w !! i = Some (it, no_ack) →
  let w' := step (HandlerDone i r) w in
  trace w' =
    trace w ++
      match r with
      | Ok => if no_ack then [] else [Sent (basic_ack (delivery_tag it))]
      | Fail e => [Print (read_failure_line e)]
      end
  ∧ handling w' = delete i (handling w)
  ∧ waiters w' = waiters w
  ∧ pending w' = pending w.
Proof.
  intros Hi. destruct_world w. unfold step. wsimpl. rewrite Hi.
  unfold_model. wsimpl.
  destruct r as [|[|?]]; try destruct no_ack; wsimpl; simpl;
    rewrite ?app_nil_r; done.
Qed.

Lemma deferred_handler_acks_on_completion_witness :
  let w := sample_handling in
  let w' := step (HandlerDone 0 Ok) w in
  trace w' = trace w ++ [Sent (basic_ack 42)]
  ∧ handling w' = delete 0 (handling w)
  ∧ waiters w' = waiters w
  ∧ pending w' = pending w.
Proof.
  exact (deferred_handler_acks_on_completion sample_handling 0
           (Item 42 "hello") false Ok eq_refl).
Defined.

(** X7. When the armed [queue.get()] of a consumer fails, the loop of that
    consumer ends: the failure is printed ("Queue closed" for
    [txamqp.queue.Closed], the generic line otherwise), the consumer is
    not armed again and no directive is sent to set it up again; the
    protocol object, the other consumers and the subscription list are
    untouched. *)
Theorem get_failure_ends_loop (w : world) (consumer_tag : string)
    (e : failure) (callback : handler) (no_ack : bool) :
  waiters w !! consumer_tag = Some (callback, no_ack) →
  let w' := step (GetFailed consumer_tag e) w in
  trace w' = trace w ++ [Print (read_failure_line e)]
  ∧ waiters w' = delete consumer_tag (waiters w)
  ∧ pending w' = pending w
  ∧ read_list w' = read_list w
  ∧ p w' = p w
  ∧ established w' = established w
  ∧ retries w' = retries w.
Proof.
  intros Hw. destruct_world w. unfold step. wsimpl. rewrite Hw.
  unfold_model. wsimpl. by destruct e.
Qed.

Lemma get_failure_ends_loop_witness :
  let w := sample_consuming in
  let w' := step (GetFailed "1" Closed) w in
  trace w' = trace w ++ [Print "Queue closed"]
  ∧ waiters w' = delete "1" (waiters w)
  ∧ pending w' = pending w
  ∧ read_list w' = read_list w
  ∧ p w' = p w
  ∧ established w' = established w
  ∧ retries w' = retries w.
Proof.
  exact (get_failure_ends_loop sample_consuming "1" Closed 7 false eq_refl).
Defined.

(** ** Declaration options *)





(** ** Construction, continued *)

(** X11. Whatever the arguments of the constructor, no connection
    parameter is left empty: user, password, virtual host, host and
    specification file are non-empty strings and the port is not zero.  An
    empty string or a zero given explicitly is replaced by the default like
    an omitted argument; so the factory cannot be made to log in with an
    empty password. *)
Theorem init_parameters_never_empty (a : init_args) :
  let c := cfg (AMQPFactory.__init__ a) in
  spec_file c ≠ "" ∧ user c ≠ "" ∧ password c ≠ "" ∧ vhost c ≠ ""
  ∧ host c ≠ "" ∧ port c ≠ 0%Z
  ∧ password
      (cfg (AMQPFactory.__init__
              (InitArgs (a_spec_file a) (a_vhost a) (a_host a) (a_port a)
                 (a_user a) (Some "") (a_prefetch_count a) (a_heartbeat a)
                 (a_insist a) (a_use_ssl a)))) = "guest".
Proof.
  assert (∀ x d, d ≠ "" → or_str x d ≠ "") as Hs.
  { intros [s|] d Hd; simpl; [|done]. by destruct (decide (s = "")). }
  assert (∀ x d, d ≠ 0%Z → or_int x d ≠ 0%Z) as Hi.
  { intros [z|] d Hd; simpl; [|done]. by destruct (decide (z = 0%Z)). }
  simpl. repeat split; try (by apply Hs); by apply Hi.
Qed.

(** ** A connection from the attempt to the ready state *)

(** One step from a world whose attributes are explicit. *)
Ltac eval_step :=
  match goal with
  | |- context [step ?ev (World ?c ?f ?pr ?qm ?rl ?re ?es ?pe ?pu ?wa ?ha ?nh ?tr)] =>
      let x := fresh "x" in
      let E := fresh "E" in
      remember (step ev (World c f pr qm rl re es pe pu wa ha nh tr)) as x eqn:E;
      unfold step in E; wsimpl; unfold_model; wsimpl;
      simpl (_ ++ _) in E; subst x
  end.





(** ** A subscription from the call to the first wait *)

(** X13. A subscription made on a ready session with nothing outstanding,
    each directive succeeding: the exchange is declared, then the queue,
    under the name [setup_read] settled on; the queue is bound to the
    exchange with the routing key; consumption starts with the next
    consumer tag of the protocol object and the acknowledgement mode asked
    for; and the first [queue.get()] is armed with the handler.  The entry
    appended to [read_list] holds the queue as [setup_read] named it. *)
Theorem subscription_activation (w : world) (self : protocol)
    (exchange queue q : pyarg) (callback : handler) (routing_key : string)
    (no_ack : bool) (qn en : pyval) :
  p w = Some self →
  connected self = true →
  pending w = [] →
  exchange ≠ Val PNone →
  AMQPProtocol.name_queue exchange queue = Some q →
  with_defaults queue_defaults "queue" q !! "queue" = Some qn →
  with_defaults exchange_defaults "exchange" exchange !! "exchange" = Some en →
  let tag := pretty (S (default 0 (_consumer_tag self))) in
  let w' :=
    run (Read exchange (Some callback) routing_key queue no_ack ::
         replicate 4 (Reply Ok)) w in
  trace w' =
    trace w ++
      [declare exchange;
       Sent (queue_declare (with_defaults queue_defaults "queue" q));
       Sent (queue_bind qn en routing_key);
       Sent (basic_consume qn no_ack tag);
       Get tag]
  ∧ waiters w' = <[tag := (callback, no_ack)]> (waiters w)
  ∧ pending w' = []
  ∧ read_list w' =
      read_list w ++ [Subscription exchange routing_key callback q no_ack]
  ∧ p w' =
      Some (Protocol (prefetch_count self) true
              (Some (S (default 0 (_consumer_tag self)))) (chan self))
  ∧ queued_messages w' = queued_messages w.
Proof.
  intros Hp Hc Hpe He Hq Hqn Hen. cbv zeta.
  change (replicate 4 (Reply Ok)) with [Reply Ok; Reply Ok; Reply Ok; Reply Ok].
  rewrite !run_cons. change (run [] ?x) with x.
  remember (step (Read exchange (Some callback) routing_key queue no_ack) w)
    as w0 eqn:E.
  unfold step in E. rewrite read_eq in E by done. cbv zeta in E.
  unfold is_ready, sub_named, sub_cont, sub_declare in E.
  simpl s_exchange in E. simpl s_queue in E. rewrite Hp, Hc, Hq in E.
  destruct_world w. wsimpl. simpl in Hp, Hpe. subst pr pe. simpl in E.
  subst w0.
  eval_step. eval_step. rewrite Hqn, Hen. wsimpl. simpl (_ ++ _).
  eval_step. rewrite Hqn. wsimpl. simpl (_ ++ _).
  eval_step. rewrite <- !app_assoc. simpl. rewrite Hc.
  by repeat split.
Qed.

Lemma subscription_activation_witness :
  let w := sample_ready in
  let w' :=
    run (Read (Val (PStr "orders")) (Some 7) "rk" (Dict ∅) false ::
         replicate 4 (Reply Ok)) w in
  trace w' =
    trace w ++
      [declare (Val (PStr "orders"));
       Sent (queue_declare
               (with_defaults queue_defaults "queue"
                  (Dict {[ "queue" := PStr "orders" ]})));
       Sent (queue_bind (PStr "orders") (PStr "orders") "rk");
       Sent (basic_consume (PStr "orders") false "1");
       Get "1"]
  ∧ waiters w' = <["1" := (7, false)]> (waiters w)
  ∧ pending w' = []
  ∧ read_list w' =
      read_list w ++
        [Subscription (Val (PStr "orders")) "rk" 7
           (Dict {[ "queue" := PStr "orders" ]}) false]
  ∧ p w' = Some (Protocol None true (Some 1) (Some 1%Z))
  ∧ queued_messages w' = queued_messages w.
Proof.
  exact (subscription_activation sample_ready
           (Protocol None true None (Some 1%Z))
           (Val (PStr "orders")) (Dict ∅)
           (Dict {[ "queue" := PStr "orders" ]}) 7 "rk" false
           (PStr "orders") (PStr "orders")
           eq_refl eq_refl eq_refl ltac:(discriminate) eq_refl eq_refl eq_refl).
Defined.

(** ** Between the opening of the channel and the reply to the QoS setting *)

(** X14. With a prefetch count, [_channel_open] sets [connected] before it
    waits for the reply to [basic_qos].  A subscription made in between is
    therefore set up at once, and set up a second time when the reply
    arrives and [_channel_open] walks [read_list], which holds it by then:
    its exchange is declared twice and two generators of [setup_read] are
    parked for it, the one started by the call ahead of those of the
    replay. *)
Theorem subscription_in_qos_window_set_up_twice (w : world) (self : protocol)
    (exchange queue q : pyarg) (callback : handler) (routing_key : string)
    (no_ack : bool) :
  p w = Some self →
  connected self = true →
  pending w = [k_basic_qos] →
  exchange ≠ Val PNone →
  AMQPProtocol.name_queue exchange queue = Some q →
  let s := Subscription exchange routing_key callback q no_ack in
  let k :=
    k_setup_read_1 (with_defaults exchange_defaults "exchange" exchange) q
      routing_key callback no_ack in
  let w' :=
    run [Read exchange (Some callback) routing_key queue no_ack; Reply Ok] w in
  read_list w' = map sub_named (read_list w) ++ [s]
  ∧ pending w' = [k] ++ omap sub_cont (read_list w) ++ [k]
      ++ map msg_cont (queued_messages w)
  ∧ trace w' =
      trace w ++ [declare exchange] ++ omap sub_declare (read_list w) ++
        [declare exchange] ++
        map (λ m, declare (m_exchange m)) (queued_messages w) ++
        (if initial_deferred_fired w then [] else [InitialFired]).
Proof.
  intros Hp Hc Hpe He Hq. cbv zeta.
  rewrite !run_cons. change (run [] ?x) with x.
  remember (step (Read exchange (Some callback) routing_key queue no_ack) w)
    as w0 eqn:E.
  unfold step in E. rewrite read_eq in E by done. cbv zeta in E.
  unfold is_ready, sub_named, sub_cont, sub_declare in E.
  simpl s_exchange in E. simpl s_queue in E. rewrite Hp, Hc, Hq in E.
  destruct_world w. wsimpl. simpl in Hp, Hpe. subst pr pe. simpl in E.
  subst w0. eval_step.
  assert (AMQPProtocol.name_queue exchange q = Some q) as Hq'.
  { revert Hq. unfold AMQPProtocol.name_queue.
    destruct queue as [v|d]; [by intros [= <-]|].
    destruct (d !! "queue") eqn:Hd; [intros [= <-]; by rewrite Hd|].
    destruct exchange as [v|e]; simpl.
    - intros [= <-]. by rewrite lookup_insert_eq.
    - destruct (e !! "exchange"); simpl; [|done].
      intros [= <-]. by rewrite lookup_insert_eq. }
  rewrite channel_open_ready_eq by (simpl; done). wsimpl.
  rewrite map_app, !omap_app. simpl.
  unfold sub_named, sub_cont, sub_declare. simpl. rewrite Hq'. simpl.
  rewrite <- !app_assoc. simpl. by repeat split.
Qed.

Lemma subscription_in_qos_window_set_up_twice_witness :
  let w := sample_qos_window in
  let exchange := Val (PStr "orders") in
  let s := Subscription exchange "" 7 (Val PNone) true in
  let k :=
    k_setup_read_1 (with_defaults exchange_defaults "exchange" exchange)
      (Val PNone) "" 7 true in
  let w' := run [read_default exchange (Some 7); Reply Ok] w in
  read_list w' = map sub_named (read_list w) ++ [s]
  ∧ pending w' = [k] ++ omap sub_cont (read_list w) ++ [k]
      ++ map msg_cont (queued_messages w)
  ∧ trace w' =
      trace w ++ [declare exchange] ++ omap sub_declare (read_list w) ++
        [declare exchange] ++
        map (λ m, declare (m_exchange m)) (queued_messages w) ++
        (if initial_deferred_fired w then [] else [InitialFired]).
Proof.
  exact (subscription_in_qos_window_set_up_twice sample_qos_window
           (Protocol (Some 10%Z) true None (Some 1%Z))
           (Val (PStr "orders")) (Val PNone) (Val PNone) 7 "" true
           eq_refl eq_refl eq_refl ltac:(discriminate) eq_refl).
Defined.

(** ** A message from the call to the resolution of its handle *)

(** X15. A message sent on a ready session with nothing queued or
    outstanding: the call hands it over at once, leaving the queue empty;
    its exchange is declared; on the reply the publish goes out with the
    exchange name, the routing key, the content and the flags of the call;
    and when the deferred of the publish fires, with either result, the
    handle the call returned is resolved, with a success. *)
Theorem message_declared_published_resolved (w : world) (self : protocol)
    (exchange : pyarg) (msg : pyval) (routing_key : string)
    (delivery_mode : Z) (immediate mandatory : bool) (en : pyval)
    (r : outcome) :
  p w = Some self →
  connected self = true →
  pending w = [] →
  queued_messages w = [] →
  publishing w = [] →
  exchange ≠ Val PNone →
  msg ≠ PNone →
  with_defaults exchange_defaults "exchange" exchange !! "exchange" = Some en →
  AMQPFactory.send_message exchange msg routing_key delivery_mode immediate
    mandatory w =
    Some (step (Send exchange msg routing_key delivery_mode immediate
                  mandatory) w, next_handle w)
  ∧ let w' :=
      run [Send exchange msg routing_key delivery_mode immediate mandatory;
           Reply Ok; Published 0 r] w in
    trace w' =
      trace w ++
        [declare exchange;
         Sent (basic_publish en routing_key msg delivery_mode immediate
                 mandatory)] ++
        match r with
        | Ok => []
        | Fail _ => [Print "Sending message failed"]
        end ++ [Resolved (next_handle w) Ok]
    ∧ queued_messages w' = []
    ∧ pending w' = []
    ∧ publishing w' = []
    ∧ next_handle w' = S (next_handle w).
Proof.
  intros Hp Hc Hpe Hqm Hpu He Hm Hen. cbv zeta.
  assert (is_ready w = true) as Hr by (unfold is_ready; by rewrite Hp).
  split.
  { unfold step. destruct AMQPFactory.send_message as [[w1 h]|] eqn:E.
    - rewrite send_message_eq in E by done. simplify_eq. f_equal.
    - by rewrite send_message_eq in E. }
  rewrite !run_cons. change (run [] ?x) with x.
  remember (step (Send exchange msg routing_key delivery_mode immediate
                    mandatory) w) as w0 eqn:E.
  unfold step in E. rewrite send_message_eq in E by done. cbv zeta in E.
  replace (is_ready (set_next_handle (S (next_handle w)) w))
    with true in E by (by destruct_world w).
  destruct_world w. wsimpl. simpl in Hp, Hpe, Hqm, Hpu. subst pr pe qm pu.
  simpl in E. unfold msg_cont in E. simpl in E. subst w0.
  eval_step. rewrite Hen. wsimpl. simpl (_ ++ _). eval_step.
  simpl. destruct r; wsimpl; rewrite <- !app_assoc; simpl; by repeat split.
Qed.

Lemma message_declared_published_resolved_witness :
  AMQPFactory.send_message (Val (PStr "orders")) (PStr "hello") "" 2 false
    false sample_ready =
    Some (step (Send (Val (PStr "orders")) (PStr "hello") "" 2 false false)
            sample_ready, next_handle sample_ready)
  ∧ let w := sample_ready in
    let w' :=
      run [Send (Val (PStr "orders")) (PStr "hello") "" 2 false false;
           Reply Ok; Published 0 Ok] w in
    trace w' =
      trace w ++
        [declare (Val (PStr "orders"));
         Sent (basic_publish (PStr "orders") "" (PStr "hello") 2 false false)]
        ++ [] ++ [Resolved (next_handle w) Ok]
    ∧ queued_messages w' = []
    ∧ pending w' = []
    ∧ publishing w' = []
    ∧ next_handle w' = S (next_handle w).
Proof.
  exact (message_declared_published_resolved sample_ready
           (Protocol None true None (Some 1%Z))
           (Val (PStr "orders")) (PStr "hello") "" 2 false false
           (PStr "orders") Ok
           eq_refl eq_refl eq_refl eq_refl eq_refl
           ltac:(discriminate) ltac:(discriminate) eq_refl).
Defined.

(** ** Every step, case by case *)

Lemma send_message_gen (exchange : pyarg) (msg : pyval) (routing_key : string)
    (delivery_mode : Z) (immediate mandatory : bool) (w : world) :
  AMQPFactory.send_message exchange msg routing_key delivery_mode immediate
    mandatory w =
  if decide (exchange ≠ Val PNone ∧ msg ≠ PNone) then
    Some
      (let m := Message exchange routing_key msg delivery_mode immediate
                  mandatory (next_handle w) in
       if is_ready w
       then set_queued []
              (set_pending
                 (pending w ++ map msg_cont (queued_messages w ++ [m]))
                 (set_trace
                    (trace w ++
                       map (λ m, declare (m_exchange m))
                         (queued_messages w ++ [m]))
                    (set_next_handle (S (next_handle w)) w)))
       else set_queued (queued_messages w ++ [m])
              (set_next_handle (S (next_handle w)) w),
       next_handle w)
  else None.
Proof.
  destruct (decide (exchange ≠ Val PNone ∧ msg ≠ PNone)) as [[He Hm]|Hn].
  - rewrite send_message_eq by done. cbv zeta.
    replace (is_ready (set_next_handle (S (next_handle w)) w))
      with (is_ready w) by (by destruct_world w).
    destruct_world w. by wsimpl.
  - unfold AMQPFactory.send_message. by rewrite decide_False.
Qed.

Lemma read_gen (exchange : pyarg) (callback : option handler)
    (routing_key : string) (queue : pyarg) (no_ack : bool) (w : world) :
  AMQPFactory.read exchange callback routing_key queue no_ack w =
  match callback with
  | Some callback =>
      if decide (exchange ≠ Val PNone) then
        Some
          (let s := Subscription exchange routing_key callback queue no_ack in
           if is_ready w
           then set_read_list (read_list w ++ [sub_named s])
                  (set_pending (pending w ++ option_list (sub_cont s))
                     (set_trace (trace w ++ option_list (sub_declare s)) w))
           else set_read_list (read_list w ++ [s]) w)
      else None
  | None => None
  end.
Proof.
  destruct callback as [callback|]; [|done].
  destruct (decide (exchange ≠ Val PNone)) as [He|Hn].
  - by rewrite read_eq.
  - unfold AMQPFactory.read. by rewrite decide_False.
Qed.

Lemma channel_open_gen (w : world) :
  AMQPProtocol._channel_open w =
  match p w with
  | Some self =>
      let w1 := set_p (Some (AMQPProtocol.set_connected true self)) w in
      if AMQPProtocol.truthy (prefetch_count self)
      then invoke (basic_qos (default 0%Z (prefetch_count self))) k_basic_qos w1
      else AMQPProtocol._channel_open_ready w1
  | None => w
  end.
Proof.
  destruct (p w) as [self|] eqn:Hp.
  - by apply channel_open_eq.
  - by apply channel_open_none.
Qed.

(** A case distinction the code makes, other than the reading of an
    attribute of the world. *)
Ltac case_split :=
  match goal with
  | |- context [match ?x with _ => _ end] =>
      lazymatch type of x with
      | world => fail
      | (world * _)%type => fail
      | _ => idtac
      end;
      lazymatch x with
      | context [AMQPProtocol._channel_open] => fail
      | context [AMQPProtocol._channel_open_ready] => fail
      | _ => destruct x eqn:?
      end
  end.

(** The world after a step, with its attributes explicit, one goal for each
    path through the code of the step. *)
Ltac step_cases ev w :=
  destruct_world w; destruct ev; unfold step;
  rewrite ?send_message_gen, ?read_gen;
  repeat match goal with
         | |- context [decide ?P] => destruct (decide P)
         | |- context [default _ (match ?x with _ => _ end)] => destruct x
         end;
  cbv beta iota delta [default from_option id]; wsimpl; unfold_model; wsimpl;
  repeat case_split; wsimpl; simplify_eq;
  rewrite ?channel_open_gen; wsimpl; unfold_model; wsimpl;
  repeat case_split; wsimpl; simplify_eq;
  rewrite ?channel_open_ready_eq_gen; wsimpl; unfold_model; wsimpl;
  repeat case_split; wsimpl; simplify_eq;
  cbv beta iota delta [fst snd].

(** ** The retry count *)

(** X16. The retry count, which sets the delay of the next connection
    attempt, changes with the reports of the connector and with nothing
    else: the success of an attempt resets it, in [buildProtocol], before
    the login is even sent; a failed attempt and the loss of a connection
    add one.  No reply of the broker touches it, so the session becoming
    ready does not reset it and a failed handshake does not add to it. *)
Theorem retries_follow_the_connector (ev : event) (w : world) :
  retries (step ev w) =
  match ev with
  | Connected => if established w then retries w else 0
  | ConnectFailed => if established w then retries w else S (retries w)
  | ConnectionLost => if established w then S (retries w) else retries w
  | _ => retries w
  end.
Proof. step_cases ev w; reflexivity. Qed.

(** ** The order of the publishes *)

Lemma omap_None {A B} (f : A → option B) (l : list A) :
  Forall (λ x, f x = None) l → omap f l = [].
Proof. induction 1 as [|x l Hx _ IH]; simpl; [done|]. by rewrite Hx. Qed.

Lemma published_declares (l : list message) :
  omap is_publish (map (λ m, declare (m_exchange m)) l) = [].
Proof. apply omap_None, Forall_forall. by intros ? (m & -> & _)%list_elem_of_fmap. Qed.

Lemma published_sub_declares (l : list subscription) :
  omap is_publish (omap sub_declare l) = [].
Proof.
  apply omap_None, Forall_forall. intros o (s & _ & Hs)%list_elem_of_omap.
  unfold sub_declare in Hs. by destruct AMQPProtocol.name_queue; simplify_eq/=.
Qed.

Lemma published_sub_declare (s : subscription) :
  omap is_publish (option_list (sub_declare s)) = [].
Proof. unfold sub_declare. by destruct AMQPProtocol.name_queue. Qed.

Lemma cont_publish_msg_conts (l : list message) :
  omap cont_publish (map msg_cont l) = omap msg_publish l.
Proof.
  induction l as [|m l IH]; [done|]. csimpl. rewrite <- IH.
  unfold msg_publish. by destruct (_ !! "exchange").
Qed.

Lemma cont_publish_sub_conts (l : list subscription) :
  omap cont_publish (omap sub_cont l) = [].
Proof.
  apply omap_None, Forall_forall. intros o (s & _ & Hs)%list_elem_of_omap.
  unfold sub_cont in Hs. by destruct AMQPProtocol.name_queue; simplify_eq/=.
Qed.

Lemma cont_publish_sub_cont (s : subscription) :
  omap cont_publish (option_list (sub_cont s)) = [].
Proof. unfold sub_cont. by destruct AMQPProtocol.name_queue. Qed.

Lemma publishes_step (evs : list event) (ev : event) (w : world) :
  (published (trace w) ++ omap cont_publish (pending w) ++
     omap msg_publish (queued_messages w)) `sublist_of` offered evs →
  (published (trace (step ev w)) ++ omap cont_publish (pending (step ev w)) ++
     omap msg_publish (queued_messages (step ev w)))
    `sublist_of` offered (evs ++ [ev]).
Proof.
  intros IH. unfold offered. rewrite omap_app. fold (offered evs).
  unfold published in *.
  step_cases ev w.
  all: simpl; rewrite ?decide_True, ?decide_False by done.
  all: rewrite ?omap_app, ?published_declares, ?published_sub_declares,
         ?published_sub_declare, ?cont_publish_msg_conts,
         ?cont_publish_sub_conts, ?cont_publish_sub_cont, ?omap_app.
  all: simpl; rewrite ?app_nil_r, <- ?app_assoc; simpl.
  all: try exact IH.
  (* an accepted message joins the end *)
  1,2: rewrite !app_assoc; apply sublist_app; [by rewrite <- !app_assoc|done].
  (* the requests of a connection go with it *)
  1,2: etrans; [|exact IH]; apply sublist_app; [done|];
       by apply sublist_inserts_l.
  (* the reply to the declaration of a message *)
  all: csimpl in IH; destruct (_ !! "exchange"); simplify_eq/=;
    try exact IH.
  etrans; [|exact IH]. apply sublist_app; [done|]. by apply sublist_cons.
Qed.

(** X17. The publishes go out in the order of the calls.  At any moment of
    any run, the publishes sent so far, followed by those of the messages
    whose exchange declaration is outstanding and by those of the messages
    still in the queue, are a subsequence of the publishes the accepted
    [send_message] calls of the run asked for, in the order of the calls.
    So no message is published twice or out of turn, none overtakes one
    called earlier through a reconnection, and nothing is published that
    was not asked for; a message may only drop out, when its declaration
    fails or the connection is lost before its publish. *)
Theorem publishes_follow_the_calls (a : init_args) (evs : list event) :
  let w := run evs (AMQPFactory.__init__ a) in
  (published (trace w) ++ omap cont_publish (pending w) ++
     omap msg_publish (queued_messages w)) `sublist_of` offered evs
  ∧ published (trace w) `sublist_of` offered evs.
Proof.
  cbv zeta.
  assert ((published (trace (run evs (AMQPFactory.__init__ a))) ++
           omap cont_publish (pending (run evs (AMQPFactory.__init__ a))) ++
           omap msg_publish
             (queued_messages (run evs (AMQPFactory.__init__ a))))
            `sublist_of` offered evs) as H.
  { induction evs as [|ev evs IH] using rev_ind.
    - simpl. by destruct (a_use_ssl a).
    - rewrite run_snoc. by apply publishes_step. }
  split; [done|]. etrans; [|exact H]. by apply sublist_inserts_r.
Qed.

(** ** The initial deferred *)

Lemma omap_declares {B} (f : obs → option B) (l : list message) :
  (∀ d, f (Sent d) = None) →
  omap f (map (λ m, declare (m_exchange m)) l) = [].
Proof.
  intros Hf. apply omap_None, Forall_forall.
  intros ? (m & -> & _)%list_elem_of_fmap. apply Hf.
Qed.

Lemma omap_sub_declares {B} (f : obs → option B) (l : list subscription) :
  (∀ d, f (Sent d) = None) → omap f (omap sub_declare l) = [].
Proof.
  intros Hf. apply omap_None, Forall_forall.
  intros o (s & _ & Hs)%list_elem_of_omap.
  unfold sub_declare in Hs.
  destruct AMQPProtocol.name_queue; simplify_eq/=. apply Hf.
Qed.

Lemma omap_sub_declare {B} (f : obs → option B) (s : subscription) :
  (∀ d, f (Sent d) = None) → omap f (option_list (sub_declare s)) = [].
Proof.
  intros Hf. unfold sub_declare.
  destruct AMQPProtocol.name_queue; simpl; [|done]. unfold declare.
  by rewrite Hf.
Qed.

Lemma initial_fired_step (ev : event) (w : world) :
  length (omap is_initial_fired (trace w)) =
    (if initial_deferred_fired w then 1 else 0) →
  length (omap is_initial_fired (trace (step ev w))) =
    (if initial_deferred_fired (step ev w) then 1 else 0).
Proof.
  intros IH. step_cases ev w.
  all: rewrite ?omap_app, ?omap_declares, ?omap_sub_declares,
         ?omap_sub_declare by done.
  all: simpl; rewrite ?app_nil_r, ?length_app; simpl; rewrite ?IH.
  all: try done.
Qed.

(** X18. The initial deferred of the factory fires at most once in the
    life of the factory, however many connections come and go: at every
    moment of every run the trace holds one firing if the flag
    [initial_deferred_fired] is set and none if it is not. *)
Theorem initial_deferred_fires_once (a : init_args) (evs : list event) :
  let w := run evs (AMQPFactory.__init__ a) in
  length (omap is_initial_fired (trace w)) =
    (if initial_deferred_fired w then 1 else 0).
Proof.
  cbv zeta. induction evs as [|ev evs IH] using rev_ind.
  - simpl. by destruct (a_use_ssl a).
  - rewrite run_snoc. by apply initial_fired_step.
Qed.

(** ** The handles of the messages *)

Lemma cont_handle_msg_conts (l : list message) :
  omap cont_handle (map msg_cont l) = m_sent <$> l.
Proof. induction l as [|m l IH]; [done|]. csimpl. by rewrite <- IH. Qed.

Lemma cont_handle_sub_conts (l : list subscription) :
  omap cont_handle (omap sub_cont l) = [].
Proof.
  apply omap_None, Forall_forall. intros o (s & _ & Hs)%list_elem_of_omap.
  unfold sub_cont in Hs. by destruct AMQPProtocol.name_queue; simplify_eq/=.
Qed.

Lemma cont_handle_sub_cont (s : subscription) :
  omap cont_handle (option_list (sub_cont s)) = [].
Proof. unfold sub_cont. by destruct AMQPProtocol.name_queue. Qed.

Lemma handles_step (ev : event) (w : world) :
  handles w ⊆+ seq 0 (next_handle w) →
  handles (step ev w) ⊆+ seq 0 (next_handle (step ev w)).
Proof.
  unfold handles, resolved. intros IH. step_cases ev w.
  all: rewrite ?omap_app, ?omap_declares, ?omap_sub_declares,
         ?omap_sub_declare, ?cont_handle_msg_conts, ?cont_handle_sub_conts,
         ?cont_handle_sub_cont, ?fmap_app by done.
  all: simpl; rewrite ?app_nil_r; simpl.
  all: try exact IH.
  all: csimpl in IH.
  all: try match goal with
           | H : ?pu !! ?i = Some ?h |- context [delete ?i ?pu] =>
               rewrite (delete_Permutation pu i h H) in IH
           end.
  all: try (etrans; [|exact IH]; solve_submseteq).
  all: change (0 :: seq 1 ?n) with (seq 0 (S n)); rewrite seq_S; simpl.
  all: etrans; [|apply submseteq_app; [exact IH|reflexivity]].
  all: solve_submseteq.
Qed.

Lemma resolved_ok_step (ev : event) (w : world) :
  Forall (λ hr, hr.2 = Ok) (resolved (trace w)) →
  Forall (λ hr, hr.2 = Ok) (resolved (trace (step ev w))).
Proof.
  unfold resolved. intros IH. step_cases ev w.
  all: rewrite ?omap_app, ?omap_declares, ?omap_sub_declares,
         ?omap_sub_declare by done.
  all: simpl; rewrite ?app_nil_r; simpl.
  all: try exact IH.
  all: apply Forall_app; split; [exact IH|by repeat constructor].
Qed.

(** X19. The handles [send_message] returns are resolved at most once
    each, and never with a failure.  At every moment of every run, the
    handles resolved so far are pairwise different, each is one a call of
    [send_message] has returned, and each was resolved with a success;
    moreover no handle is at once resolved and still held for a message in
    the queue, a parked [_send_message] or a publish in flight. *)
Theorem handles_resolve_once_with_success (a : init_args)
    (evs : list event) :
  let w := run evs (AMQPFactory.__init__ a) in
  NoDup (handles w)
  ∧ NoDup (fst <$> resolved (trace w))
  ∧ Forall (λ hr, hr.1 < next_handle w ∧ hr.2 = Ok) (resolved (trace w)).
Proof.
  cbv zeta.
  assert (handles (run evs (AMQPFactory.__init__ a))
            ⊆+ seq 0 (next_handle (run evs (AMQPFactory.__init__ a)))
          ∧ Forall (λ hr, hr.2 = Ok)
              (resolved (trace (run evs (AMQPFactory.__init__ a)))))
    as [Hh Hok].
  { induction evs as [|ev evs IH] using rev_ind.
    - simpl. unfold handles, resolved. simpl.
      destruct (a_use_ssl a); simpl; by split.
    - rewrite run_snoc. destruct IH as [IH1 IH2].
      split; [by apply handles_step|by apply resolved_ok_step]. }
  assert (NoDup (handles (run evs (AMQPFactory.__init__ a)))) as Hnd.
  { apply submseteq_Permutation in Hh as [k Hk].
    pose proof (NoDup_seq 0 (next_handle (run evs (AMQPFactory.__init__ a))))
      as Hs.
    rewrite Hk in Hs. by apply NoDup_app in Hs as [? _]. }
  split; [done|]. split.
  - unfold handles in Hnd. by apply NoDup_app in Hnd as [? _].
  - apply Forall_forall. intros [h r] Hhr. split.
    + assert (h ∈ seq 0 (next_handle (run evs (AMQPFactory.__init__ a))))
        as Hin.
      { eapply elem_of_submseteq; [|exact Hh]. unfold handles.
        apply elem_of_app. left. apply list_elem_of_fmap. by exists (h, r). }
      apply elem_of_seq in Hin. simpl. lia.
    + by apply (proj1 (Forall_forall _ _) Hok (h, r)).
Qed.

(** ** The factory and its connection *)




(** ** Losing the connection *)



(** ** The subscription list *)




(** ** After a failed handshake *)

Lemma stalled_step (ev : event) (w : world) (self : protocol) :
  ev ≠ ConnectionLost →
  p w = Some self → connected self = false → established w = true →
  pending w = [] → waiters w = ∅ → handling w = [] →
  let w' := step ev w in
  p w' = Some self ∧ established w' = true ∧ pending w' = []
  ∧ waiters w' = ∅ ∧ handling w' = []
  ∧ sent (trace w') = sent (trace w)
  ∧ retries w' = retries w
  ∧ read_list w' = read_list w ++ subscribed [ev].
Proof.
  intros Hev Hp Hc He Hpe Hwa Hha. cbv zeta. unfold sent, subscribed.
  step_cases ev w.
  all: simpl in *; simplify_eq; rewrite ?decide_True, ?decide_False by done.
  all: try match goal with
           | H : ?x = true, H' : ?x = false |- _ =>
               rewrite H in H'; discriminate
           end.
  all: try match goal with
           | H : ∅ !! _ = Some _ |- _ => by rewrite lookup_empty in H
           end.
  all: rewrite ?omap_app, ?app_nil_r; simpl; rewrite ?app_nil_r.
  all: by repeat split.
Qed.

(** X23. A failed handshake stalls the connection.  Once the login, the
    channel or its opening has failed, the protocol object stays in the
    factory, never flagged connected and with nothing outstanding; and as
    long as the transport is not lost, whatever else happens, no directive
    is sent any more, the factory asks for no reconnection, and the
    subscriptions made meanwhile are only recorded. *)
Theorem failed_handshake_stalls (w : world) (self : protocol)
    (evs : list event) :
  p w = Some self → connected self = false → established w = true →
  pending w = [] → waiters w = ∅ → handling w = [] →
  ConnectionLost ∉ evs →
  let w' := run evs w in
  p w' = Some self ∧ is_ready w' = false ∧ pending w' = []
  ∧ sent (trace w') = sent (trace w)
  ∧ retries w' = retries w
  ∧ read_list w' = read_list w ++ subscribed evs.
Proof.
  intros Hp Hc He Hpe Hwa Hha Hevs. cbv zeta.
  assert (p (run evs w) = Some self ∧ established (run evs w) = true
          ∧ pending (run evs w) = [] ∧ waiters (run evs w) = ∅
          ∧ handling (run evs w) = []
          ∧ sent (trace (run evs w)) = sent (trace w)
          ∧ retries (run evs w) = retries w
          ∧ read_list (run evs w) = read_list w ++ subscribed evs) as H.
  { induction evs as [|ev evs IH] using rev_ind.
    - simpl. by rewrite app_nil_r.
    - apply not_elem_of_app in Hevs as [Hevs Hev].
      destruct (IH Hevs) as (IH1 & IH2 & IH3 & IH4 & IH5 & IH6 & IH7 & IH8).
      rewrite run_snoc.
      destruct (stalled_step ev (run evs w) self) as
        (H1 & H2 & H3 & H4 & H5 & H6 & H7 & H8); try done.
      { intros ->. apply Hev. by left. }
      repeat split; try done; try congruence.
      rewrite H8, IH8. unfold subscribed. by rewrite omap_app, app_assoc. }
  destruct H as (H1 & H2 & H3 & H4 & H5 & H6 & H7 & H8).
  repeat split; try done. unfold is_ready. by rewrite H1.
Qed.

Lemma failed_handshake_stalls_witness :
  let w := sample_refused in
  let evs :=
    [send_default (Val (PStr "orders")) (PStr "hello"); Reply Ok;
     read_default (Val (PStr "orders")) (Some 7); Connected] in
  let w' := run evs w in
  p w' = Some (Protocol None false None None) ∧ is_ready w' = false
  ∧ pending w' = []
  ∧ sent (trace w') = sent (trace w)
  ∧ retries w' = retries w
  ∧ read_list w' = read_list w ++ subscribed evs.
Proof.
  refine (failed_handshake_stalls sample_refused
            (Protocol None false None None) _
            eq_refl eq_refl eq_refl eq_refl eq_refl eq_refl _).
  intros H. repeat (apply elem_of_cons in H as [H|H]; [discriminate|]).
  by apply elem_of_nil in H.
Defined.

(** ** From the queue to the broker *)

Lemma step_Reply_msg (m : message) (l : list cont) (w : world) :
  pending w = msg_cont m :: l →
  step (Reply Ok) w =
  match msg_publish m with
  | Some d =>
      set_publishing (publishing w ++ [m_sent m])
        (set_trace (trace w ++ [Sent d]) (set_pending l w))
  | None => set_pending l w
  end.
Proof.
  intros Hpe. destruct_world w. unfold step. wsimpl. subst pe.
  unfold msg_cont, msg_publish. unfold_model. wsimpl.
  by destruct (_ !! "exchange").
Qed.

Lemma published_msg_publishes (ms : list message) :
  published (omap (λ m, Sent <$> msg_publish m) ms) = omap msg_publish ms.
Proof.
  unfold published. induction ms as [|m ms IH]; [done|]. csimpl.
  destruct (msg_publish m) as [d|] eqn:Hd; csimpl; [|exact IH].
  unfold msg_publish in Hd. destruct (_ !! "exchange"); simplify_eq/=.
  f_equal. exact IH.
Qed.

Lemma drain_replies (ms : list message) (w : world) :
  pending w = map msg_cont ms →
  run (replicate (length ms) (Reply Ok)) w =
  set_publishing (publishing w ++ omap msg_handle ms)
    (set_trace (trace w ++ omap (λ m, Sent <$> msg_publish m) ms)
       (set_pending [] w)).
Proof.
  revert w. induction ms as [|m ms IH]; intros w Hpe.
  - destruct_world w. wsimpl. simpl in *. subst. by rewrite !app_nil_r.
  - simpl replicate. rewrite run_cons.
    rewrite (step_Reply_msg m (map msg_cont ms) w Hpe).
    unfold msg_handle in *. csimpl.
    destruct (msg_publish m) as [d|] eqn:Hd; simpl.
    + rewrite IH by (by destruct_world w). destruct_world w. wsimpl.
      by rewrite <- !app_assoc.
    + rewrite IH by (by destruct_world w). destruct_world w. by wsimpl.
Qed.

(** X24. The replies to the exchange declarations of parked messages
    publish them in order.  When the requests outstanding on the channel
    are the declarations of the messages [ms], as many successful replies
    send the publishes of [ms], one per reply and in the order of [ms], put
    their handles in flight in the same order, and leave nothing
    outstanding; a message whose exchange dict has no ['exchange'] entry
    is skipped, its generator having raised. *)
Theorem parked_messages_published_in_order (ms : list message) (w : world) :
  pending w = map msg_cont ms →
  let w' := run (replicate (length ms) (Reply Ok)) w in
  trace w' = trace w ++ omap (λ m, Sent <$> msg_publish m) ms
  ∧ published (trace w') = published (trace w) ++ omap msg_publish ms
  ∧ publishing w' = publishing w ++ omap msg_handle ms
  ∧ pending w' = []
  ∧ queued_messages w' = queued_messages w
  ∧ p w' = p w.
Proof.
  intros Hpe. cbv zeta. rewrite drain_replies by done.
  pose proof (published_msg_publishes ms) as Hms.
  destruct_world w. wsimpl. unfold published in *.
  rewrite omap_app, Hms. by repeat split.
Qed.

Lemma parked_messages_published_in_order_witness :
  let w := sample_declaring in
  let ms := [Message (Val (PStr "orders")) "" (PStr "hello") 2 false false 0] in
  let w' := run (replicate (length ms) (Reply Ok)) w in
  trace w' = trace w ++ omap (λ m, Sent <$> msg_publish m) ms
  ∧ published (trace w') = published (trace w) ++ omap msg_publish ms
  ∧ publishing w' = publishing w ++ omap msg_handle ms
  ∧ pending w' = []
  ∧ queued_messages w' = queued_messages w
  ∧ p w' = p w.
Proof.
  exact (parked_messages_published_in_order
           [Message (Val (PStr "orders")) "" (PStr "hello") 2 false false 0]
           sample_declaring eq_refl).
Defined.

(** ** Messages sent before the first connection *)





